(** * A character-level sequence-to-sequence translator

    Shallow embedding of the notebook [sec3-5-seq-to-seq-model.ipynb]: the
    corpus scan, the vocabulary indices, the one-hot vectorisation and the
    greedy decoding loop [decode_sentence].

    Conventions.
    - A Python [str] is a list of characters; a character is an [ascii]
      code, ordered by its code point as Python orders one-character
      strings.
    - A [dict] is a [gmap], a [set] a [gset].
    - A NumPy float array is a nested list of rationals; the arrays of the
      notebook only ever hold the values [0.] and [1.], the outputs of the
      decoder are finite probabilities.
    - A Python exception is a [Raise e] result; every statement that can
      raise is written in the [result] monad, in the order in which Python
      evaluates it.
    - The two trained Keras models are parameters: nothing is assumed of
      the numbers they compute.
    - The data-preparation cells are [notebook_on_file], from the text
      read from the corpus file. [notebook] runs the same cells on lines
      already cut at their tabulation; a run on a file succeeds exactly
      when its retained lines can be cut and [notebook] succeeds on the
      pairs obtained, with the same result ([notebook_on_file_Ok]). *)

From Stdlib Require Import Ascii String QArith.
From Equations Require Import Equations.
From Equations.Prop Require Import Logic.
From stdpp Require Import gmap strings list sorting.

#[local] Set Warnings "-clear-no-such-hyp,-abstract-large-number".

Local Open Scope nat_scope.
Local Open Scope list_scope.

(** ** Python exceptions and the result monad *)

Inductive py_error : Set :=
| ValueError
| KeyError
| IndexError.

Definition error_name (e : py_error) : string :=
  match e with
  | ValueError => "ValueError"
  | KeyError => "KeyError"
  | IndexError => "IndexError"
  end.

Inductive result (A : Type) : Type :=
| Ok (a : A)
| Raise (e : py_error).
Arguments Ok {A} a.
Arguments Raise {A} e.

#[global] Instance result_ret : MRet result := λ A a, Ok a.
#[global] Instance result_bind : MBind result := λ A B f m,
  match m with
  | Ok a => f a
  | Raise e => Raise e
  end.

(** ** Python and NumPy primitives *)

Abbreviation str := (list ascii).

(** ['\t'], the start marker, and ['\n'], the end marker. *)
Definition TAB : ascii := "009"%char.
Definition NEWLINE : ascii := "010"%char.

(** [enumerate(l, start)] *)
Fixpoint enumerate_from {A} (start : nat) (l : list A) : list (nat * A) :=
  match l with
  | [] => []
  | x :: l' => (start, x) :: enumerate_from (S start) l'
  end.
Definition enumerate {A} (l : list A) : list (nat * A) := enumerate_from 0 l.

(** [for x in l: s = body(s, x)], where the body may raise. *)
Fixpoint for_each {A S} (l : list A) (body : S → A → result S) (s : S)
  : result S :=
  match l with
  | [] => Ok s
  | x :: l' => s' ← body s x; for_each l' body s'
  end.

(** [max(l)]: raises [ValueError] on the empty list. *)
Definition py_max (l : list nat) : result nat :=
  match l with
  | [] => Raise ValueError
  | x :: l' => Ok (fold_left Nat.max l' x)
  end.

(** [dict(pairs)]: later pairs overwrite earlier ones. *)
Definition dict `{Countable K} {V} (pairs : list (K * V)) : gmap K V :=
  fold_left (λ m kv, <[kv.1 := kv.2]> m) pairs ∅.

(** [d[k]]: raises [KeyError] when the key is absent. *)
Definition getitem `{Countable K} {V} (d : gmap K V) (k : K) : result V :=
  match d !! k with
  | Some v => Ok v
  | None => Raise KeyError
  end.

(** [sorted(l)] on characters: ascending code points. *)
Definition char_le (a b : ascii) : Prop := (N_of_ascii a ≤ N_of_ascii b)%N.
#[global] Instance char_le_dec a b : Decision (char_le a b) :=
  N.le_dec (N_of_ascii a) (N_of_ascii b).
Definition sorted (l : list ascii) : list ascii := merge_sort char_le l.

(** Arrays of rank 1, 2 and 3. *)
Abbreviation array1 := (list Q).
Abbreviation array2 := (list (list Q)).
Abbreviation array3 := (list (list (list Q))).

(** [np.zeros((n, T, K))] *)
Definition np_zeros (n T K : nat) : array3 :=
  replicate n (replicate T (replicate K 0%Q)).

(** The row of width [K] with a one at position [k]. *)
Definition one_hot (K k : nat) : array1 := <[k := 1%Q]> (replicate K 0%Q).

(** [a[i, t, :]] *)
Definition row3 (a : array3) (i t : nat) : option array1 :=
  m ← a !! i; m !! t.

(** An array of [n] matrices of [T] rows each. *)
Definition shape (a : array3) (n T : nat) : Prop :=
  length a = n ∧ Forall (λ m, length m = T) a.

(** [a[i, t, k] = v] for non-negative indices: raises [IndexError] when an
    index is out of bounds for its axis. *)
Definition set3 (a : array3) (i t k : nat) (v : Q) : result array3 :=
  match a !! i with
  | None => Raise IndexError
  | Some m =>
      match m !! t with
      | None => Raise IndexError
      | Some row =>
          if decide (k < length row)
          then Ok (<[i := <[t := <[k := v]> row]> m]> a)
          else Raise IndexError
      end
  end.

(** [np.argmax(row)]: the scan keeps the running best position and replaces
    it only by a strictly larger entry; raises [ValueError] on an empty
    row. *)
Definition Qgtb (x y : Q) : bool := negb (Qle_bool x y).

Fixpoint argmax_scan (best : nat) (best_val : Q) (i : nat) (l : array1)
  : nat :=
  match l with
  | [] => best
  | x :: l' =>
      if Qgtb x best_val
      then argmax_scan i x (S i) l'
      else argmax_scan best best_val (S i) l'
  end.

Definition np_argmax (row : array1) : result nat :=
  match row with
  | [] => Raise ValueError
  | x :: l => Ok (argmax_scan 0 x 1 l)
  end.

(** Position [j] holds a maximum of [row]. *)
Definition attains_max (row : array1) (j : nat) : Prop :=
  ∃ y, row !! j = Some y ∧ ∀ k z, row !! k = Some z → (z <= y)%Q.

(** [a[0, -1, :]]: the last row of the first matrix. *)
Definition first_last_row (a : array3) : result array1 :=
  match a with
  | [] => Raise IndexError
  | m :: _ =>
      match last m with
      | None => Raise IndexError
      | Some row => Ok row
      end
  end.

(** ** Reading the corpus *)

Definition num_samples : nat := 20000.

(** The four accumulators of the scanning cell. *)
Record corpus_scan := {
  scan_inputs : list str;
  scan_targets : list str;
  scan_input_chars : gset ascii;
  scan_target_chars : gset ascii
}.

(** [for char in seq: if char not in chars: chars.add(char)] *)
Definition add_chars (seq : str) (chars : gset ascii) : gset ascii :=
  fold_left (λ acc char, if decide (char ∈ acc) then acc else {[char]} ∪ acc)
            seq chars.

(** The body of the scanning loop after [x_seq, y_seq = line.split('\t')],
    on the pair obtained, and the loop on lines given as such pairs. *)
Definition scan_line (sc : corpus_scan) (line : str * str) : corpus_scan :=
  let x_seq := line.1 in
  let y_seq := [TAB] ++ line.2 ++ [NEWLINE] in
  {| scan_inputs := scan_inputs sc ++ [x_seq];
     scan_targets := scan_targets sc ++ [y_seq];
     scan_input_chars := add_chars x_seq (scan_input_chars sc);
     scan_target_chars := add_chars y_seq (scan_target_chars sc) |}.

Definition scan_lines (lines : list (str * str)) : corpus_scan :=
  fold_left scan_line
            (take (Nat.min num_samples (length lines)) lines)
            {| scan_inputs := []; scan_targets := [];
               scan_input_chars := ∅; scan_target_chars := ∅ |}.

(** The examples the scan retains, in closed form: the first
    [num_samples] lines, each target between its two markers. *)
Definition scanned (lines : list (str * str)) : list (str * str) :=
  (λ l, (l.1, [TAB] ++ l.2 ++ [NEWLINE]))
    <$> take (Nat.min num_samples (length lines)) lines.

#[global] Arguments num_samples : simpl never.
#[global] Arguments scan_lines : simpl never.
#[global] Arguments scanned : simpl never.

(** ** Reading the corpus file *)

(** The scan as the notebook runs it, on the text of the file: the lines
    are read, and each retained line is cut by [line.split('\t')] in the
    body of the scanning loop, which may raise. *)

(** [s.split(sep)] for a separator of one character: the text is cut at
    every occurrence of the separator, and the fields may be empty. *)
Fixpoint py_split (sep : ascii) (s : str) : list str :=
  match s with
  | [] => [[]]
  | c :: s' =>
      if decide (c = sep) then [] :: py_split sep s'
      else match py_split sep s' with
           | field :: fields => (c :: field) :: fields
           | [] => [[c]]
           end
  end.

(** [l[:-1]] *)
Definition drop_last {A} (l : list A) : list A := take (length l - 1) l.

(** [lines = f.read().split('\n')], then [lines = lines[:-1]], on the
    text read from the file. *)
Definition read_lines (content : str) : list str :=
  drop_last (py_split NEWLINE content).

(** [x_seq, y_seq = line.split('\t')]: unpacking raises [ValueError]
    unless there are exactly two fields. *)
Definition split_line (line : str) : result (str * str) :=
  match py_split TAB line with
  | [x_seq; y_seq] => Ok (x_seq, y_seq)
  | _ => Raise ValueError
  end.

(** Body of [for line in lines[: min(num_samples, len(lines))]], and the
    loop, on the lines as read. *)
Definition scan_raw_line (sc : corpus_scan) (line : str)
  : result corpus_scan :=
  p ← split_line line;
  Ok (scan_line sc p).

Definition scan_raw_lines (lines : list str) : result corpus_scan :=
  for_each (take (Nat.min num_samples (length lines)) lines)
           scan_raw_line
           {| scan_inputs := []; scan_targets := [];
              scan_input_chars := ∅; scan_target_chars := ∅ |}.

#[global] Arguments scan_raw_lines : simpl never.

(** A line cut in two at its only tabulation. *)
Definition cut_at_tab (line : str) (p : str * str) : Prop :=
  line = p.1 ++ TAB :: p.2 ∧ (TAB ∉ p.1) ∧ (TAB ∉ p.2).

(** ** Vocabulary indices *)

(** [dict([(char, i) for i, char in enumerate(chars)])] *)
Definition token_index (chars : list ascii) : gmap ascii nat :=
  dict ((λ p, (p.2, p.1)) <$> enumerate chars).

(** [dict((i, char) for char, i in index.items())] *)
Definition reverse_index (index : gmap ascii nat) : gmap nat ascii :=
  dict ((λ p, (p.2, p.1)) <$> map_to_list index).

(** What is asked of the index of the character set [S]: [chars] lists it,
    [char_to_index] and [index_to_char] are the two dictionaries and [N]
    the alphabet size. *)
Definition vocabulary_index (S : gset ascii) (chars : list ascii)
    (char_to_index : gmap ascii nat) (index_to_char : gmap nat ascii)
    (N : nat) : Prop :=
  N = size S
  ∧ (∀ c, c ∈ S ↔ is_Some (char_to_index !! c))
  ∧ (∀ c i, char_to_index !! c = Some i → index_to_char !! i = Some c)
  ∧ (∀ i, i < N ↔ ∃ c, char_to_index !! c = Some i)
  ∧ (∀ c c' i, char_to_index !! c = Some i → char_to_index !! c' = Some i
               → c = c')
  ∧ (∀ c i, char_to_index !! c = Some i ↔ chars !! i = Some c)
  ∧ (∀ c c' i i', char_to_index !! c = Some i → char_to_index !! c' = Some i'
                  → (i < i' ↔ (N_of_ascii c < N_of_ascii c')%N))
  ∧ (∀ l, l ≡ₚ elements S → sorted l = chars).

(** ** Building the one-hot arrays *)

(** Body of [for t, char in enumerate(x_seq)]:
    [encoder_input_data[i, t, input_token_index[char]] = 1.] *)
Definition mark_input_char (index : gmap ascii nat) (i : nat)
    (a : array3) (p : nat * ascii) : result array3 :=
  k ← getitem index p.2;
  set3 a i p.1 k 1%Q.

(** Body of [for t, char in enumerate(y_seq)], on the pair
    [(decoder_input_data, decoder_target_data)]. *)
Definition mark_target_char (index : gmap ascii nat) (i : nat)
    (ab : array3 * array3) (p : nat * ascii) : result (array3 * array3) :=
  k ← getitem index p.2;
  dec_in ← set3 ab.1 i p.1 k 1%Q;
  if decide (0 < p.1)
  then k' ← getitem index p.2;
       dec_tgt ← set3 ab.2 i (p.1 - 1) k' 1%Q;
       Ok (dec_in, dec_tgt)
  else Ok (dec_in, ab.2).

(** Body of [for i, (x_seq, y_seq) in enumerate(zip(inputs, targets))]. *)
Definition mark_example (input_index target_index : gmap ascii nat)
    (data : array3 * (array3 * array3)) (p : nat * (str * str))
  : result (array3 * (array3 * array3)) :=
  let i := p.1 in
  let x_seq := p.2.1 in
  let y_seq := p.2.2 in
  enc ← for_each (enumerate x_seq) (mark_input_char input_index i) data.1;
  dec ← for_each (enumerate y_seq) (mark_target_char target_index i) data.2;
  Ok (enc, dec).

Definition vectorize (inputs targets : list str)
    (input_index target_index : gmap ascii nat)
    (max_enc num_enc max_dec num_dec : nat)
  : result (array3 * (array3 * array3)) :=
  let encoder_input_data := np_zeros (length inputs) max_enc num_enc in
  let decoder_input_data := np_zeros (length inputs) max_dec num_dec in
  let decoder_target_data := np_zeros (length inputs) max_dec num_dec in
  for_each (enumerate (zip inputs targets))
           (mark_example input_index target_index)
           (encoder_input_data, (decoder_input_data, decoder_target_data)).

(** The encoding of a text in closed form: over [T] time steps, the
    one-hot row of the character at each position of the text and an
    all-zero row past its end. *)
Definition encode_row (index : gmap ascii nat) (K : nat) (c : option ascii)
  : array1 :=
  match c ≫= (index !!.) with
  | Some k => one_hot K k
  | None => replicate K 0%Q
  end.

Definition encode_text (index : gmap ascii nat) (T K : nat) (s : str)
  : array2 :=
  (λ t, encode_row index K (s !! t)) <$> seq 0 T.

(** What lets a text be encoded without an exception: it fits in [T] time
    steps and each of its characters has an index below [K]. *)
Definition encodable (index : gmap ascii nat) (T K : nat) (s : str) : Prop :=
  length s ≤ T ∧ ∀ c, c ∈ s → ∃ k, index !! c = Some k ∧ k < K.

(** ** The notebook's global variables *)

Record globals := {
  inputs : list str;
  targets : list str;
  input_chars : list ascii;
  target_chars : list ascii;
  num_encoder_tokens : nat;
  num_decoder_tokens : nat;
  max_encoder_seq_length : nat;
  max_decoder_seq_length : nat;
  input_token_index : gmap ascii nat;
  target_token_index : gmap ascii nat;
  encoder_input_data : array3;
  decoder_input_data : array3;
  decoder_target_data : array3;
  reverse_input_char_index : gmap nat ascii;
  reverse_target_char_index : gmap nat ascii
}.

(** The cells that follow the scanning loop, run in order on the
    accumulators it has left: statistics, indices, arrays and reverse
    indices. The cell that computes the lengths comes before the cell that
    allocates the arrays. *)
Definition cells_after_scan (sc : corpus_scan) : result globals :=
  let input_chars := sorted (elements (scan_input_chars sc)) in
  let target_chars := sorted (elements (scan_target_chars sc)) in
  let num_encoder_tokens := length input_chars in
  let num_decoder_tokens := length target_chars in
  max_encoder_seq_length ← py_max (length <$> scan_inputs sc);
  max_decoder_seq_length ← py_max (length <$> scan_targets sc);
  let input_token_index := token_index input_chars in
  let target_token_index := token_index target_chars in
  data ← vectorize (scan_inputs sc) (scan_targets sc)
                   input_token_index target_token_index
                   max_encoder_seq_length num_encoder_tokens
                   max_decoder_seq_length num_decoder_tokens;
  Ok {| inputs := scan_inputs sc;
        targets := scan_targets sc;
        input_chars := input_chars;
        target_chars := target_chars;
        num_encoder_tokens := num_encoder_tokens;
        num_decoder_tokens := num_decoder_tokens;
        max_encoder_seq_length := max_encoder_seq_length;
        max_decoder_seq_length := max_decoder_seq_length;
        input_token_index := input_token_index;
        target_token_index := target_token_index;
        encoder_input_data := data.1;
        decoder_input_data := data.2.1;
        decoder_target_data := data.2.2;
        reverse_input_char_index := reverse_index input_token_index;
        reverse_target_char_index := reverse_index target_token_index |}.

(** The data-preparation cells on lines that are given already cut at
    their tabulation, for which the scanning loop cannot raise. *)
Definition notebook (lines : list (str * str)) : result globals :=
  cells_after_scan (scan_lines lines).

(** The data-preparation cells as the notebook runs them, from the text
    of the corpus file: the file is read, the scanning loop cuts and scans
    the first [num_samples] lines, and the other cells follow if it has
    not raised. *)
Definition notebook_on_file (content : str) : result globals :=
  sc ← scan_raw_lines (read_lines content);
  cells_after_scan sc.

#[global] Arguments notebook_on_file : simpl never.

(** ** Greedy decoding *)

Record loop_state {vec : Type} := {
  target_seq : array3;
  states_value : vec * vec;
  decoded_sentence : str;
  stop_condition : bool
}.
Arguments loop_state vec : clear implicits.

Section Decoding.
(** The recurrent state vectors and the two inference models:
    [encoder_model.predict(input_seq)] returns [[h, c]],
    [decoder_model.predict([target_seq] + states_value)] returns
    [output_tokens, h, c]. *)
Context {vec : Type}.
Variable encoder_model : array3 → vec * vec.
Variable decoder_model : array3 → vec * vec → array3 * (vec * vec).

Variable g : globals.

(** The input sentence as a one-hot array of one example. *)
Definition input_seq_of (input_sentence : str) : result array3 :=
  for_each (enumerate input_sentence)
           (mark_input_char (input_token_index g) 0)
           (np_zeros 1 (max_encoder_seq_length g) (num_encoder_tokens g)).

(** One execution of the body of [while not stop_condition]. *)
Definition loop_body (st : loop_state vec) : result (loop_state vec) :=
  let out := decoder_model (target_seq st) (states_value st) in
  let output_tokens := out.1 in
  row ← first_last_row output_tokens;
  sampled_token_index ← np_argmax row;
  sampled_char ← getitem (reverse_target_char_index g) sampled_token_index;
  let decoded := decoded_sentence st ++ [sampled_char] in
  let stop :=
    if decide (sampled_char = NEWLINE
               ∨ max_decoder_seq_length g < length decoded)
    then true else stop_condition st in
  target ← set3 (np_zeros 1 1 (num_decoder_tokens g))
                0 0 sampled_token_index 1%Q;
  Ok {| target_seq := target;
        states_value := out.2;
        decoded_sentence := decoded;
        stop_condition := stop |}.

(** What is left to run: nothing once the flag is set, otherwise at most
    the room left below the length bound, plus the execution that sets
    the flag. *)
Definition loop_measure (st : loop_state vec) : nat :=
  if stop_condition st then 0
  else S (S (max_decoder_seq_length g) - length (decoded_sentence st)).

(** [while not stop_condition: body] *)
Equations while_loop (st : loop_state vec) : result (loop_state vec)
  by wf (loop_measure st) lt :=
  while_loop st with inspect (stop_condition st) := {
    | exist _ true _ => Ok st
    | exist _ false Hstop with inspect (loop_body st) := {
        | exist _ (Ok st') Hbody => while_loop st'
        | exist _ (Raise e) _ => Raise e } }.
Next Obligation.
  intros st st' Hbody Hstop _; simpl in Hbody, Hstop.
  revert Hbody. unfold loop_body, loop_measure. rewrite Hstop.
  destruct (first_last_row _) as [row|]; simpl; [|done].
  destruct (np_argmax row) as [i|]; simpl; [|done].
  destruct (getitem _ i) as [c|]; simpl; [|done].
  destruct (set3 _ _ _ _ _) as [t|]; simpl; [|done].
  intros [= <-]; simpl. rewrite length_app; simpl.
  case_decide; simpl; lia.
Qed.

(** The statements of [decode_sentence] before the loop. *)
Definition initial_state (input_sentence : str)
  : result (loop_state vec) :=
  input_seq ← input_seq_of input_sentence;
  let states_value := encoder_model input_seq in
  start ← getitem (target_token_index g) TAB;
  target_seq ← set3 (np_zeros 1 1 (num_decoder_tokens g)) 0 0 start 1%Q;
  Ok {| target_seq := target_seq;
        states_value := states_value;
        decoded_sentence := [];
        stop_condition := false |}.

Definition decode_sentence (input_sentence : str) : result str :=
  st0 ← initial_state input_sentence;
  st ← while_loop st0;
  Ok (decoded_sentence st).

(** Counting semantics of the loop: [loop_run st n r] when the loop
    entered in state [st] starts its body [n] times and ends with [r],
    the state at the exit or the exception that interrupted it. *)
Inductive loop_run : loop_state vec → nat → result (loop_state vec) → Prop :=
| run_exit st :
    stop_condition st = true →
    loop_run st 0 (Ok st)
| run_raise st e :
    stop_condition st = false →
    loop_body st = Raise e →
    loop_run st 1 (Raise e)
| run_next st st' n r :
    stop_condition st = false →
    loop_body st = Ok st' →
    loop_run st' n r →
    loop_run st (S n) r.

(** The same for a whole call: [decode_run s n r] when
    [decode_sentence(s)] starts the loop body [n] times and ends with
    [r]. *)
Inductive decode_run (input_sentence : str) : nat → result str → Prop :=
| decode_run_early e :
    initial_state input_sentence = Raise e →
    decode_run input_sentence 0 (Raise e)
| decode_run_return st0 n st :
    initial_state input_sentence = Ok st0 →
    loop_run st0 n (Ok st) →
    decode_run input_sentence n (Ok (decoded_sentence st))
| decode_run_raise st0 n e :
    initial_state input_sentence = Ok st0 →
    loop_run st0 n (Raise e) →
    decode_run input_sentence n (Raise e).

End Decoding.

(** The decoder model answers with an array of shape [(1, 1, K)]: one
    distribution over the [K] target characters. *)
Definition well_shaped {vec : Type}
    (decoder_model : array3 → vec * vec → array3 * (vec * vec)) (K : nat)
  : Prop :=
  ∀ target_seq states_value,
    ∃ row, (decoder_model target_seq states_value).1 = [[row]]
           ∧ length row = K.

(** ** A small corpus and scripted models

    One line, ["b\tabab"]: the target alphabet is ['\t', '\n', 'a', 'b'],
    indexed 0 to 3, and the longest target, ["\tabab\n"], has 6
    characters. The scripted decoder counts its calls in its recurrent
    state and puts all the probability on the index the script gives for
    that call, or on a default index once the script is over. *)

Definition text (s : string) : str := list_ascii_of_string s.

Definition demo_lines : list (str * str) := [(text "b", text "abab")].
Definition sentence_b : str := text "b".

(** A corpus of one line with an empty source text, ["\ta"]. *)
Definition empty_source_lines : list (str * str) := [([], text "a")].

Definition no_globals : globals :=
  {| inputs := []; targets := []; input_chars := []; target_chars := [];
     num_encoder_tokens := 0; num_decoder_tokens := 0;
     max_encoder_seq_length := 0; max_decoder_seq_length := 0;
     input_token_index := ∅; target_token_index := ∅;
     encoder_input_data := []; decoder_input_data := [];
     decoder_target_data := [];
     reverse_input_char_index := ∅; reverse_target_char_index := ∅ |}.

Definition demo_globals : globals :=
  match notebook demo_lines with
  | Ok g => g
  | Raise _ => no_globals
  end.

Definition demo_encoder (input_seq : array3) : nat * nat := (0, 0).

Definition scripted_decoder (script : list nat) (otherwise : nat)
    (target_seq : array3) (states_value : nat * nat)
  : array3 * (nat * nat) :=
  ([[one_hot 4 (default otherwise (script !! states_value.1))]],
   (S states_value.1, states_value.2)).

(** Five times ['a'], then the end marker. *)
Definition five_a_decoder := scripted_decoder [2; 2; 2; 2; 2] 1.
(** Six times ['a'], then the end marker. *)
Definition six_a_decoder := scripted_decoder [2; 2; 2; 2; 2; 2] 1.
(** ['a'] for ever. *)
Definition only_a_decoder := scripted_decoder [] 2.
(** The start marker, then the end marker. *)
Definition tab_decoder := scripted_decoder [0] 1.

(** The state in which [decode_sentence] enters its loop on the small
    corpus, and the state after one execution of the body with
    [tie_decoder] below. *)
Definition demo_state0 : loop_state nat :=
  {| target_seq := [[one_hot 4 0]]; states_value := (0, 0);
     decoded_sentence := []; stop_condition := false |}.
Definition tie_state1 : loop_state nat :=
  {| target_seq := [[one_hot 4 1]]; states_value := (0, 0);
     decoded_sentence := [NEWLINE]; stop_condition := true |}.

(** A decoder whose distribution has its maximum, 3/8, at the indices 1
    and 2; the two are written as different fractions. *)
Definition tie_decoder (target_seq : array3) (states_value : nat * nat)
  : array3 * (nat * nat) :=
  ([[ [(1 # 4)%Q; (3 # 8)%Q; (6 # 16)%Q; 0%Q] ]], states_value).

(** ** Translating a list of sentences *)

(** [print(sentence, ':', translation)] writes the three arguments
    separated by spaces, and a newline. *)
Definition print_translation (sentence translation : str) : str :=
  sentence ++ text " : " ++ translation ++ [NEWLINE].

Section Translating.
Context {vec : Type}.
Variable encoder_model : array3 → vec * vec.
Variable decoder_model : array3 → vec * vec → array3 * (vec * vec).
Variable g : globals.

(** [for sentence in sentences: print(sentence, ':',
    decode_sentence(sentence))], from the text printed so far to the text
    printed at the end and the exception that stopped the loop, if any. *)
Fixpoint translate_all (sentences : list str) (stdout : str)
  : str * option py_error :=
  match sentences with
  | [] => (stdout, None)
  | sentence :: rest =>
      match decode_sentence encoder_model decoder_model g sentence with
      | Ok translation =>
          translate_all rest (stdout ++ print_translation sentence translation)
      | Raise e => (stdout, Some e)
      end
  end.

End Translating.

(** A file of two lines, ["b\tabab\nab\tb\n"], and the pairs of its
    lines. *)
Definition demo_content : str :=
  text "b" ++ TAB :: text "abab" ++ NEWLINE
    :: text "ab" ++ TAB :: text "b" ++ [NEWLINE].
Definition demo_content_pairs : list (str * str) :=
  [(text "b", text "abab"); (text "ab", text "b")].
Definition demo_file_globals : globals :=
  match notebook_on_file demo_content with
  | Ok g => g
  | Raise _ => no_globals
  end.

(** A file of one line with an empty source text, ["\ta\n"]. *)
Definition empty_source_content : str := TAB :: text "a" ++ [NEWLINE].

(** * Properties *)

(** ** The result monad *)

Lemma bind_Ok {A B} (f : A → result B) (m : result A) (b : B) :
  m ≫= f = Ok b ↔ ∃ a, m = Ok a ∧ f a = Ok b.
Proof.
  destruct m as [a|e]; simpl; split.
  - by exists a.
  - by intros (? & [= <-] & ?).
  - done.
  - by intros (? & ? & ?).
Qed.

Lemma Ok_inj {A} (a b : A) : Ok a = Ok b → a = b.
Proof. by intros [= ->]. Qed.

Lemma getitem_Ok `{Countable K} {V} (d : gmap K V) k v :
  getitem d k = Ok v ↔ d !! k = Some v.
Proof. unfold getitem. destruct (d !! k); split; congruence. Qed.

(** ** Arg-max *)

Lemma Qgtb_true x y : Qgtb x y = true ↔ (y < x)%Q.
Proof.
  unfold Qgtb. rewrite negb_true_iff, <- not_true_iff_false, Qle_bool_iff.
  split; [apply Qnot_le_lt|apply Qlt_not_le].
Qed.

Lemma Qgtb_false x y : Qgtb x y = false ↔ (x <= y)%Q.
Proof. unfold Qgtb. by rewrite negb_false_iff, Qle_bool_iff. Qed.

(** The scan, started after the prefix [p] of which [best] is the first
    position of a maximum, ends on the first position of a maximum of the
    whole row. *)
Lemma argmax_scan_first (p l : array1) (best : nat) (best_val : Q) :
  p !! best = Some best_val →
  attains_max p best →
  (∀ j, attains_max p j → best ≤ j) →
  attains_max (p ++ l) (argmax_scan best best_val (length p) l)
  ∧ ∀ j, attains_max (p ++ l) j
         → argmax_scan best best_val (length p) l ≤ j.
Proof.
  revert p best best_val.
  induction l as [|x l IH]; intros p best best_val Hbest Hmax Hfirst; simpl.
  { by rewrite app_nil_r. }
  assert (Hlt : best < length p) by by eapply lookup_lt_Some.
  assert (Hbound : ∀ k z, p !! k = Some z → (z <= best_val)%Q).
  { destruct Hmax as (y & Hy & Hall). intros k z Hk.
    rewrite Hbest in Hy. injection Hy as <-. by eapply Hall. }
  replace (p ++ x :: l) with ((p ++ [x]) ++ l) by by rewrite <- app_assoc.
  replace (S (length p)) with (length (p ++ [x]))
    by (rewrite length_app; simpl; lia).
  destruct (Qgtb x best_val) eqn:Hx.
  - apply Qgtb_true in Hx. apply IH.
    + by rewrite lookup_app_r, Nat.sub_diag.
    + exists x. split; [by rewrite lookup_app_r, Nat.sub_diag|].
      intros k z Hk. apply lookup_snoc_Some in Hk as [[_ Hk]|[_ <-]].
      * apply Qlt_le_weak. eapply Qle_lt_trans; [by eapply Hbound|done].
      * apply Qle_refl.
    + intros j (y & Hy & Hall).
      apply lookup_snoc_Some in Hy as [[Hj Hy]|[-> _]]; [|done].
      exfalso. apply (Qlt_not_le _ _ Hx).
      eapply Qle_trans; [|by eapply Hbound].
      apply (Hall (length p)). by rewrite lookup_app_r, Nat.sub_diag.
  - apply Qgtb_false in Hx. apply IH.
    + by rewrite lookup_app_l.
    + exists best_val. split; [by rewrite lookup_app_l|].
      intros k z Hk. apply lookup_snoc_Some in Hk as [[_ Hk]|[_ <-]].
      * by eapply Hbound.
      * done.
    + intros j (y & Hy & Hall).
      apply lookup_snoc_Some in Hy as [[Hj Hy]|[-> _]]; [|lia].
      apply Hfirst. exists y. split; [done|].
      intros k z Hk. apply (Hall k). by apply lookup_app_l_Some.
Qed.

Lemma np_argmax_first (row : array1) (i : nat) :
  np_argmax row = Ok i →
  attains_max row i ∧ ∀ j, attains_max row j → i ≤ j.
Proof.
  destruct row as [|x l]; simpl; [done|]. intros [= <-].
  apply (argmax_scan_first [x] l 0 x).
  - done.
  - exists x. split; [done|]. intros [|k] z Hk; [|done].
    injection Hk as <-. apply Qle_refl.
  - lia.
Qed.

(** ** The decoding loop *)

Section DecodingFacts.
Context {vec : Type}.
Variable encoder_model : array3 → vec * vec.
Variable decoder_model : array3 → vec * vec → array3 * (vec * vec).
Variable g : globals.

Abbreviation loop_body := (loop_body decoder_model g).
Abbreviation while_loop := (while_loop decoder_model g).
Abbreviation loop_run := (loop_run decoder_model g).

Lemma while_loop_eq st :
  while_loop st =
    if stop_condition st then Ok st
    else match loop_body st with
         | Ok st' => while_loop st'
         | Raise e => Raise e
         end.
Proof.
  funelim (while_loop st);
    repeat match goal with
      | E : stop_condition _ = _ |- _ => rewrite E
      | E : loop_body _ = _ |- _ => rewrite E
      end; done.
Qed.

(** What one execution of the body does to the state. *)
Lemma loop_body_Ok st st' :
  loop_body st = Ok st' →
  ∃ row i c,
    first_last_row (decoder_model (target_seq st) (states_value st)).1
      = Ok row
    ∧ np_argmax row = Ok i
    ∧ reverse_target_char_index g !! i = Some c
    ∧ i < num_decoder_tokens g
    ∧ decoded_sentence st' = decoded_sentence st ++ [c]
    ∧ stop_condition st' =
        bool_decide (c = NEWLINE
                     ∨ max_decoder_seq_length g
                       < length (decoded_sentence st ++ [c]))
        || stop_condition st
    ∧ target_seq st' = [[ <[i := 1%Q]> (replicate (num_decoder_tokens g) 0%Q) ]]
    ∧ states_value st' = (decoder_model (target_seq st) (states_value st)).2.
Proof.
  unfold loop_body.
  destruct (first_last_row _) as [row|]; simpl; [|done].
  destruct (np_argmax row) as [i|] eqn:Hi; simpl; [|done].
  destruct (getitem _ i) as [c|] eqn:Hc; simpl; [|done].
  apply getitem_Ok in Hc.
  unfold set3, np_zeros; simpl. rewrite length_replicate.
  destruct (decide (i < num_decoder_tokens g)) as [Hlt|]; simpl; [|done].
  intros [= <-]; simpl. exists row, i, c.
  repeat split; try done.
  case_bool_decide; case_decide; naive_solver.
Qed.

Lemma loop_run_total st : ∃ n, loop_run st n (while_loop st).
Proof.
  funelim (while_loop st).
  - exists 0. by constructor.
  - match goal with IH : ∃ _, _ |- _ => destruct IH as [n IH] end.
    exists (S n). by econstructor.
  - exists 1. by constructor.
Qed.

Lemma loop_run_det st n1 r1 n2 r2 :
  loop_run st n1 r1 → loop_run st n2 r2 → n1 = n2 ∧ r1 = r2.
Proof.
  intros H1. revert n2 r2.
  induction H1 as [st Hs|st e Hs Hb|st st' n r Hs Hb _ IH];
    intros n2 r2 H2; inversion H2; subst; try (split; congruence).
  - match goal with
    | E : loop_body st = Ok ?s |- _ => rewrite Hb in E; injection E as <-
    end.
    edestruct IH as [-> ->]; [eassumption|done].
Qed.

Lemma loop_run_while st n r : loop_run st n r → while_loop st = r.
Proof.
  intros H. destruct (loop_run_total st) as [n' H'].
  by destruct (loop_run_det _ _ _ _ _ H' H).
Qed.

(** The shape of the text at a normal exit of a loop entered with the
    flag unset: the characters sampled before the last one are not the
    end marker and leave the text within the length bound; the last one
    is the end marker or takes the text over the bound. *)
Lemma loop_run_Ok st n st' :
  loop_run st n (Ok st') →
  stop_condition st = false →
  ∃ body c,
    decoded_sentence st' = decoded_sentence st ++ body ++ [c]
    ∧ n = S (length body)
    ∧ (NEWLINE ∉ body)
    ∧ (body = []
       ∨ (length (decoded_sentence st) + length body
          ≤ max_decoder_seq_length g))
    ∧ (c = NEWLINE
       ∨ max_decoder_seq_length g < length (decoded_sentence st'))
    ∧ stop_condition st' = true.
Proof.
  intros H. remember (Ok st') as r eqn:Hr. revert st' Hr.
  induction H as [st Hs|st e Hs Hb|st st1 n r Hs Hb Hrun IH];
    intros st' Hr Hs0; try congruence; subst r.
  destruct (loop_body_Ok _ _ Hb) as (row & i & c1 & _ & _ & _ & _ & Hd & Hst & _).
  rewrite Hs0, orb_false_r in Hst.
  destruct (stop_condition st1) eqn:Hs1.
  - inversion Hrun; subst; try congruence.
    exists [], c1. simpl. repeat split; try done.
    + set_solver.
    + by left.
    + symmetry in Hst. apply bool_decide_eq_true in Hst.
      rewrite Hd. naive_solver.
  - destruct (IH _ eq_refl eq_refl) as (body & c & Hd' & -> & Hnl & Hlen & Hc & Hstop).
    symmetry in Hst. apply bool_decide_eq_false in Hst.
    rewrite length_app in Hst; simpl in Hst.
    exists (c1 :: body), c. repeat split; try done.
    + rewrite Hd', Hd, <- !app_assoc. done.
    + rewrite not_elem_of_cons. split; [|done].
      intros <-. apply Hst. by left.
    + right. simpl. destruct Hlen as [->|Hlen]; simpl.
      * lia.
      * rewrite Hd, length_app in Hlen. simpl in Hlen. lia.
Qed.

(** The number of executions of the body, whatever the outcome. *)
Lemma loop_run_bound st n r :
  loop_run st n r →
  n ≤ if stop_condition st then 0
      else Nat.max 1 (S (max_decoder_seq_length g)
                      - length (decoded_sentence st)).
Proof.
  induction 1 as [st Hs|st e Hs Hb|st st1 n r Hs Hb Hrun IH];
    rewrite Hs; [done|lia|].
  destruct (loop_body_Ok _ _ Hb) as (row & i & c1 & _ & _ & _ & _ & Hd & Hst & _).
  rewrite Hs, orb_false_r in Hst. rewrite Hst in IH.
  case_bool_decide as Hc; simpl in IH; [lia|].
  rewrite Hd in IH. rewrite length_app in IH, Hc. simpl in IH, Hc. lia.
Qed.

Abbreviation initial_state := (initial_state encoder_model g).
Abbreviation decode_sentence :=
  (decode_sentence encoder_model decoder_model g).
Abbreviation decode_run := (decode_run encoder_model decoder_model g).

Lemma initial_state_Ok s st0 :
  initial_state s = Ok st0 →
  decoded_sentence st0 = [] ∧ stop_condition st0 = false.
Proof.
  unfold initial_state.
  destruct (input_seq_of _ _) as [a|]; simpl; [|done].
  destruct (getitem _ _) as [k|]; simpl; [|done].
  destruct (set3 _ _ _ _ _) as [t|]; simpl; [|done].
  by intros [= <-].
Qed.

Lemma decode_run_total s : ∃ n, decode_run s n (decode_sentence s).
Proof.
  unfold decode_sentence.
  destruct (initial_state s) as [st0|e] eqn:H0; simpl.
  - destruct (loop_run_total st0) as [n Hn]. exists n.
    destruct (while_loop st0) as [st|e]; simpl.
    + by eapply decode_run_return.
    + by eapply decode_run_raise.
  - exists 0. by constructor.
Qed.

(** Every run of a call starts from the state built before the loop. *)
Lemma decode_run_inv s n r :
  decode_run s n r →
  (n = 0 ∧ ∃ e, initial_state s = Raise e ∧ r = Raise e)
  ∨ ∃ st0 r', initial_state s = Ok st0
              ∧ loop_run st0 n r'
              ∧ r = (st ← r'; Ok (decoded_sentence st)).
Proof.
  intros [e H0|st0 m st H0 L|st0 m e H0 L].
  - left. eauto.
  - right. by exists st0, (Ok st).
  - right. by exists st0, (Raise e).
Qed.

Lemma decode_run_det s n1 r1 n2 r2 :
  decode_run s n1 r1 → decode_run s n2 r2 → n1 = n2 ∧ r1 = r2.
Proof.
  intros H1 H2.
  destruct (decode_run_inv _ _ _ H1)
    as [(-> & e1 & E1 & ->)|(s1 & o1 & E1 & L1 & ->)];
  destruct (decode_run_inv _ _ _ H2)
    as [(-> & e2 & E2 & ->)|(s2 & o2 & E2 & L2 & ->)];
    try congruence.
  - split; congruence.
  - assert (s2 = s1) as -> by congruence.
    by destruct (loop_run_det _ _ _ _ _ L1 L2) as [-> ->].
Qed.

Lemma decode_run_sentence s n r : decode_run s n r → decode_sentence s = r.
Proof.
  intros H. destruct (decode_run_total s) as [n' H'].
  by destruct (decode_run_det _ _ _ _ _ H' H).
Qed.

(** The returned text, its shape and the number of executions of the
    body that produced it. *)
Lemma decode_run_Ok s n out :
  decode_run s n (Ok out) →
  ∃ body c,
    out = body ++ [c]
    ∧ n = S (length body)
    ∧ (NEWLINE ∉ body)
    ∧ length body ≤ max_decoder_seq_length g
    ∧ (c = NEWLINE ∨ max_decoder_seq_length g < length out).
Proof.
  inversion 1 as [|st0 n' st' H0 Hrun|]; subst.
  destruct (initial_state_Ok _ _ H0) as [Hd Hs].
  destruct (loop_run_Ok _ _ _ Hrun Hs)
    as (body & c & Hout & -> & Hnl & Hlen & Hc & _).
  rewrite Hd in Hout, Hlen. simpl in Hout, Hlen.
  exists body, c. repeat split; try done.
  destruct Hlen as [->|]; simpl; lia.
Qed.

(** A returned text counts the executions of the body. *)
Lemma decode_run_computed s out :
  decode_sentence s = Ok out → decode_run s (length out) (Ok out).
Proof.
  intros Hout.
  destruct (decode_run_total s) as [n Hn]. rewrite Hout in Hn.
  destruct (decode_run_Ok _ _ _ Hn) as (body & c & -> & -> & _).
  rewrite length_app, Nat.add_1_r in *. done.
Qed.

Lemma decode_run_bound s n r :
  decode_run s n r → n ≤ S (max_decoder_seq_length g).
Proof.
  intros Hn.
  destruct (decode_run_inv _ _ _ Hn)
    as [(-> & _)|(st0 & r' & H0 & Hrun & _)]; [lia|].
  destruct (initial_state_Ok _ _ H0) as [Hd Hs].
  pose proof (loop_run_bound _ _ _ Hrun) as Hb.
  rewrite Hs, Hd in Hb. simpl in Hb. lia.
Qed.

(** C3: whatever the trained models and the input sentence, a call of
    [decode_sentence] ends after at most [max_decoder_seq_length + 1]
    executions of the loop body; when it returns, the loop was left
    through the test at the end of the body, because the last sampled
    character is the end marker or because the text is longer than
    [max_decoder_seq_length]. *)
Theorem decode_sentence_terminates (input_sentence : str) :
  ∃ n,
    decode_run input_sentence n (decode_sentence input_sentence)
    ∧ n ≤ S (max_decoder_seq_length g)
    ∧ ∀ out, decode_sentence input_sentence = Ok out →
        1 ≤ n
        ∧ (last out = Some NEWLINE
           ∨ max_decoder_seq_length g < length out).
Proof.
  destruct (decode_run_total input_sentence) as [n Hn].
  exists n. split; [done|]. split.
  - by apply decode_run_bound in Hn.
  - intros out Hout. rewrite Hout in Hn.
    destruct (decode_run_Ok _ _ _ Hn) as (body & c & -> & -> & _ & _ & Hc).
    split; [lia|]. rewrite last_snoc.
    destruct Hc as [->|Hc]; [by left|by right].
Qed.

(** C4, as amended: the loop body is executed at most
    [max_decoder_seq_length + 1] times in a call of [decode_sentence],
    once for each character of the text the call returns. *)
Theorem loop_body_executions (input_sentence : str) n r :
  decode_run input_sentence n r →
  n ≤ S (max_decoder_seq_length g)
  ∧ ∀ out, r = Ok out → n = length out.
Proof.
  intros Hn. split.
  - by apply decode_run_bound in Hn.
  - intros out ->.
    destruct (decode_run_Ok _ _ _ Hn) as (body & c & -> & -> & _).
    rewrite length_app. simpl. lia.
Qed.

(** C1, as amended: the end marker is kept in the returned text. It
    occurs in the text at most once, as its last character, and it is the
    last character of every returned text of at most
    [max_decoder_seq_length] characters: the loop of such a call can only
    have stopped on the end-marker test. *)
Theorem end_marker_only_last (input_sentence : str) out :
  decode_sentence input_sentence = Ok out →
  (∀ i, out !! i = Some NEWLINE → S i = length out)
  ∧ (length out ≤ max_decoder_seq_length g → last out = Some NEWLINE).
Proof.
  intros Hout.
  destruct (decode_run_total input_sentence) as [n Hn]. rewrite Hout in Hn.
  destruct (decode_run_Ok _ _ _ Hn) as (body & c & -> & _ & Hnl & _ & Hc).
  split.
  - intros i Hi. rewrite length_app. simpl.
    destruct (decide (i < length body)) as [Hlt|Hge].
    + rewrite lookup_app_l in Hi by done.
      exfalso. apply Hnl. by eapply list_elem_of_lookup_2.
    + apply lookup_lt_Some in Hi. rewrite length_app in Hi.
      simpl in Hi. lia.
  - intros Hlen. rewrite last_snoc.
    destruct Hc as [->|Hc]; [done|lia].
Qed.

(** C10, as amended: the returned text is not empty and has at most
    [max_decoder_seq_length + 1] characters; its last character is the
    end marker or its length is exactly [max_decoder_seq_length + 1],
    and both can hold of the same text. *)
Theorem decoded_text_shape (input_sentence : str) out :
  decode_sentence input_sentence = Ok out →
  out ≠ []
  ∧ length out ≤ S (max_decoder_seq_length g)
  ∧ (last out = Some NEWLINE
     ∨ length out = S (max_decoder_seq_length g)).
Proof.
  intros Hout.
  destruct (decode_run_total input_sentence) as [n Hn]. rewrite Hout in Hn.
  destruct (decode_run_Ok _ _ _ Hn) as (body & c & -> & _ & _ & Hlen & Hc).
  rewrite last_snoc, length_app in *. simpl in *.
  split; [by destruct body|]. split; [lia|].
  destruct Hc as [->|Hc]; [by left|right; lia].
Qed.

(** C5: at every decode step the sampled index is the lowest of the
    indices at which the output distribution has its maximum, so of two
    indices that tie for the maximum the lower one is selected; the index
    is determined by the distribution alone, and it is the index whose
    character is appended and fed back. *)
Theorem greedy_step_lowest_index (st st' : loop_state vec) :
  loop_body st = Ok st' →
  ∃ row i c,
    first_last_row (decoder_model (target_seq st) (states_value st)).1
      = Ok row
    ∧ attains_max row i
    ∧ (∀ j, attains_max row j → i ≤ j)
    ∧ (∀ i', attains_max row i' → (∀ j, attains_max row j → i' ≤ j)
             → i' = i)
    ∧ reverse_target_char_index g !! i = Some c
    ∧ decoded_sentence st' = decoded_sentence st ++ [c]
    ∧ target_seq st' = [[one_hot (num_decoder_tokens g) i]].
Proof.
  intros Hb.
  destruct (loop_body_Ok _ _ Hb)
    as (row & i & c & Hrow & Hi & Hc & _ & Hd & _ & Ht & _).
  destruct (np_argmax_first _ _ Hi) as [Hmax Hfirst].
  exists row, i, c. repeat split; try done.
  intros i' Hmax' Hfirst'.
  apply Nat.le_antisymm; [by apply Hfirst'|by apply Hfirst].
Qed.

End DecodingFacts.

(** ** Sorting characters *)

#[global] Instance char_le_trans : Transitive char_le.
Proof. intros a b c. unfold char_le. lia. Qed.

#[global] Instance char_le_total : Total char_le.
Proof. intros a b. unfold char_le. lia. Qed.

#[global] Instance char_le_antisymm : AntiSymm (=) char_le.
Proof.
  intros a b Hab Hba. unfold char_le in *.
  rewrite <- (ascii_N_embedding a), <- (ascii_N_embedding b).
  f_equal. lia.
Qed.

Lemma sorted_Permutation l : sorted l ≡ₚ l.
Proof. apply merge_sort_Permutation. Qed.

Lemma sorted_StronglySorted l : StronglySorted char_le (sorted l).
Proof. apply StronglySorted_merge_sort; apply _. Qed.

(** [sorted] does not depend on the order in which its argument lists the
    characters. *)
Lemma sorted_order_irrelevant l1 l2 : l1 ≡ₚ l2 → sorted l1 = sorted l2.
Proof.
  intros H. apply (StronglySorted_unique char_le);
    try apply sorted_StronglySorted.
  by rewrite !sorted_Permutation.
Qed.

Lemma StronglySorted_lookup {A} (R : relation A) l i j x y :
  StronglySorted R l → i < j → l !! i = Some x → l !! j = Some y → R x y.
Proof.
  intros Hl. revert i j.
  induction Hl as [|a l _ IH Ha]; intros i j Hij Hi Hj; [done|].
  destruct j as [|j]; [lia|]. simpl in Hj.
  destruct i as [|i]; simpl in Hi.
  - injection Hi as <-. rewrite Forall_forall in Ha.
    apply Ha. by eapply list_elem_of_lookup_2.
  - apply (IH i j); [lia|done..].
Qed.

(** ** Dictionaries built from lists of pairs *)

Lemma dict_lookup `{Countable K} {V} (pairs : list (K * V)) k v :
  NoDup pairs.*1 →
  dict pairs !! k = Some v ↔ (k, v) ∈ pairs.
Proof.
  unfold dict.
  cut (∀ m : gmap K V,
         NoDup pairs.*1 →
         fold_left (λ m kv, <[kv.1 := kv.2]> m) pairs m !! k = Some v
         ↔ (k, v) ∈ pairs ∨ ((k ∉ pairs.*1) ∧ m !! k = Some v)).
  { intros Hcut Hnd. rewrite (Hcut ∅ Hnd), lookup_empty.
    split; [by intros [?|[_ ?]]|by left]. }
  induction pairs as [|[k' v'] pairs IH]; intros m Hnd; simpl.
  { split; [intros ?; right; split; [set_solver|done]|].
    intros [Hin|[_ ?]]; [by apply elem_of_nil in Hin|done]. }
  apply NoDup_cons in Hnd as [Hk' Hnd].
  rewrite (IH _ Hnd), elem_of_cons, not_elem_of_cons. simpl.
  destruct (decide (k = k')) as [->|Hne].
  - rewrite lookup_insert_eq. split.
    + intros [Hin|[_ [= ->]]]; [|by left; left].
      exfalso. apply Hk'. apply list_elem_of_fmap. by exists (k', v).
    + intros [[[= ->]|Hin]|[[? _] _]]; [by right|..|done].
      exfalso. apply Hk'. apply list_elem_of_fmap. by exists (k', v).
  - rewrite lookup_insert_ne by done. split.
    + intros [Hin|[? ?]]; [by left; right|by right].
    + intros [[[= ? ?]|Hin]|[[_ ?] ?]]; [done|by left|by right].
Qed.

Lemma elem_of_enumerate_from {A} (l : list A) start i x :
  (i, x) ∈ enumerate_from start l ↔ start ≤ i ∧ l !! (i - start) = Some x.
Proof.
  revert start. induction l as [|y l IH]; intros start; simpl.
  { split; [by intros ?%elem_of_nil|by intros [_ ?]]. }
  rewrite elem_of_cons, IH. split.
  - intros [[= -> ->]|[Hle Hx]].
    + by rewrite Nat.sub_diag.
    + split; [lia|]. by replace (i - start) with (S (i - S start)) by lia.
  - intros [Hle Hx]. destruct (decide (i = start)) as [->|Hne].
    + left. rewrite Nat.sub_diag in Hx. by injection Hx as ->.
    + right. split; [lia|].
      by replace (i - start) with (S (i - S start)) in Hx by lia.
Qed.

Lemma elem_of_enumerate {A} (l : list A) i x :
  (i, x) ∈ enumerate l ↔ l !! i = Some x.
Proof.
  unfold enumerate. rewrite elem_of_enumerate_from, Nat.sub_0_r.
  split; [by intros [_ ?]|]. split; [lia|done].
Qed.

Lemma enumerate_from_snd {A} (l : list A) start :
  snd <$> enumerate_from start l = l.
Proof.
  revert start. induction l as [|y l IH]; intros start; simpl; [done|].
  by rewrite IH.
Qed.

(** ** Vocabulary indices *)

Lemma token_index_lookup (chars : list ascii) c i :
  NoDup chars →
  token_index chars !! c = Some i ↔ chars !! i = Some c.
Proof.
  intros Hnd. unfold token_index. rewrite dict_lookup.
  - rewrite list_elem_of_fmap. split.
    + intros ([i' c'] & [= -> ->] & Hin). by apply elem_of_enumerate.
    + intros Hi. exists (i, c). split; [done|]. by apply elem_of_enumerate.
  - rewrite <- list_fmap_compose.
    change (NoDup (snd <$> enumerate_from 0 chars)).
    by rewrite enumerate_from_snd.
Qed.

Lemma token_index_inj (chars : list ascii) c c' i :
  NoDup chars →
  token_index chars !! c = Some i → token_index chars !! c' = Some i →
  c = c'.
Proof. intros Hnd. rewrite !token_index_lookup by done. congruence. Qed.

Lemma reverse_index_lookup (chars : list ascii) i c :
  NoDup chars →
  reverse_index (token_index chars) !! i = Some c ↔ chars !! i = Some c.
Proof.
  intros Hnd. unfold reverse_index. rewrite dict_lookup.
  - rewrite list_elem_of_fmap. split.
    + intros ([c' i'] & [= -> ->] & Hin).
      apply elem_of_map_to_list in Hin. by apply token_index_lookup in Hin.
    + intros Hi. exists (c, i). split; [done|].
      apply elem_of_map_to_list. by apply token_index_lookup.
  - rewrite <- list_fmap_compose.
    apply NoDup_fmap_2_strong; [|apply NoDup_map_to_list].
    intros [c1 i1] [c2 i2] H1 H2 Heq. simpl in Heq. subst i2.
    apply elem_of_map_to_list in H1, H2.
    f_equal. by eapply token_index_inj.
Qed.

Lemma vocabulary_index_of_set (S : gset ascii) :
  let chars := sorted (elements S) in
  vocabulary_index S chars (token_index chars)
                   (reverse_index (token_index chars)) (length chars).
Proof.
  intros chars.
  assert (Hperm : chars ≡ₚ elements S) by apply sorted_Permutation.
  assert (Hnd : NoDup chars) by (rewrite Hperm; apply NoDup_elements).
  assert (Hss : StronglySorted char_le chars) by apply sorted_StronglySorted.
  assert (Hlt : ∀ c c' i i', chars !! i = Some c → chars !! i' = Some c' →
                  i < i' → (N_of_ascii c < N_of_ascii c')%N).
  { intros c c' i i' Hi Hi' Hii'.
    pose proof (StronglySorted_lookup _ _ _ _ _ _ Hss Hii' Hi Hi') as Hle.
    unfold char_le in Hle.
    destruct (decide (N_of_ascii c = N_of_ascii c')) as [Heq|]; [|lia].
    assert (c = c') as <-.
    { by rewrite <- (ascii_N_embedding c), Heq, ascii_N_embedding. }
    pose proof (NoDup_lookup _ _ _ _ Hnd Hi Hi'). lia. }
  repeat split.
  - by rewrite Hperm.
  - intros Hc. apply elem_of_elements in Hc. rewrite <- Hperm in Hc.
    apply list_elem_of_lookup in Hc as [i Hi].
    exists i. by apply token_index_lookup.
  - intros [i Hi]. apply token_index_lookup in Hi; [|done].
    apply elem_of_elements. rewrite <- Hperm.
    by eapply list_elem_of_lookup_2.
  - intros c i Hi. apply reverse_index_lookup; [done|].
    by apply token_index_lookup in Hi.
  - intros Hi. apply lookup_lt_is_Some in Hi as [c Hc].
    exists c. by apply token_index_lookup.
  - intros [c Hc]. apply token_index_lookup in Hc; [|done].
    by eapply lookup_lt_Some.
  - intros c c' i. by apply token_index_inj.
  - by apply token_index_lookup.
  - by apply token_index_lookup.
  - intros Hii'. rewrite !token_index_lookup in * by done. by eapply Hlt.
  - intros Hcc'. rewrite !token_index_lookup in * by done.
    destruct (decide (i < i')) as [|Hge]; [done|].
    destruct (decide (i = i')) as [->|Hne].
    + assert (c = c') as -> by congruence. lia.
    + assert (N_of_ascii c' < N_of_ascii c)%N by (apply (Hlt c' c i' i); [done|done|lia]).
      lia.
  - intros l Hl. unfold chars. by apply sorted_order_irrelevant.
Qed.

(** ** The corpus scan *)

Lemma elem_of_add_chars seq chars c :
  c ∈ add_chars seq chars ↔ c ∈ seq ∨ c ∈ chars.
Proof.
  unfold add_chars. revert chars.
  induction seq as [|x seq IH]; intros chars; simpl.
  { split; [by right|]. by intros [?%elem_of_nil|?]. }
  rewrite IH, elem_of_cons. case_decide; set_solver.
Qed.

Lemma scan_lines_spec lines :
  let sc := scan_lines lines in
  scan_inputs sc = (scanned lines).*1
  ∧ scan_targets sc = (scanned lines).*2
  ∧ (∀ c, c ∈ scan_input_chars sc ↔ ∃ x, x ∈ scan_inputs sc ∧ c ∈ x)
  ∧ (∀ c, c ∈ scan_target_chars sc ↔ ∃ y, y ∈ scan_targets sc ∧ c ∈ y).
Proof.
  unfold scan_lines, scanned.
  generalize (take (Nat.min num_samples (length lines)) lines) as ls.
  intros ls.
  set (sc0 := {| scan_inputs := []; scan_targets := [];
                 scan_input_chars := ∅; scan_target_chars := ∅ |}).
  cut (∀ sc,
         let sc' := fold_left scan_line ls sc in
         scan_inputs sc' = scan_inputs sc ++ ls.*1
         ∧ scan_targets sc'
           = scan_targets sc
             ++ ((λ l, [TAB] ++ l.2 ++ [NEWLINE]) <$> ls)
         ∧ (∀ c, c ∈ scan_input_chars sc'
                 ↔ c ∈ scan_input_chars sc ∨ ∃ x, x ∈ ls.*1 ∧ c ∈ x)
         ∧ (∀ c, c ∈ scan_target_chars sc'
                 ↔ c ∈ scan_target_chars sc
                   ∨ ∃ y, y ∈ ((λ l, [TAB] ++ l.2 ++ [NEWLINE]) <$> ls)
                          ∧ c ∈ y)).
  { intros Hcut. destruct (Hcut sc0) as (Hi & Ht & Hic & Htc).
    simpl in *. rewrite <- !list_fmap_compose.
    split; [done|]. split; [done|]. split.
    - intros c. rewrite Hic, Hi. split; [|by right].
      by intros [?%not_elem_of_empty|?].
    - intros c. rewrite Htc, Ht. split; [|by right].
      by intros [?%not_elem_of_empty|?]. }
  induction ls as [|l ls IH]; intros sc; simpl.
  { rewrite !app_nil_r. repeat split; try done; try (by left).
    - by intros [?|(x & ?%elem_of_nil & _)].
    - by intros [?|(x & ?%elem_of_nil & _)]. }
  destruct (IH (scan_line sc l)) as (Hi & Ht & Hic & Htc).
  change (scan_inputs (scan_line sc l))
    with (scan_inputs sc ++ [l.1]) in Hi.
  change (scan_targets (scan_line sc l))
    with (scan_targets sc ++ [TAB :: l.2 ++ [NEWLINE]]) in Ht.
  change (scan_input_chars (scan_line sc l))
    with (add_chars l.1 (scan_input_chars sc)) in Hic.
  change (scan_target_chars (scan_line sc l))
    with (add_chars (TAB :: l.2 ++ [NEWLINE]) (scan_target_chars sc)) in Htc.
  rewrite Hi, Ht, <- !app_assoc. split; [done|]. split; [done|]. split.
  - intros c. rewrite Hic, elem_of_add_chars. split.
    + intros [[Hc|Hc]|(x & Hx & Hc)].
      * right. exists l.1. split; [by left|done].
      * by left.
      * right. exists x. split; [by right|done].
    + intros [Hc|(x & [->|Hx]%elem_of_cons & Hc)].
      * left. by right.
      * left. by left.
      * right. by exists x.
  - intros c. rewrite Htc, elem_of_add_chars. split.
    + intros [[Hc|Hc]|(y & Hy & Hc)].
      * right. exists (TAB :: l.2 ++ [NEWLINE]). split; [by left|done].
      * by left.
      * right. exists y. split; [by right|done].
    + intros [Hc|(y & [->|Hy]%elem_of_cons & Hc)].
      * left. by right.
      * left. by left.
      * right. by exists y.
Qed.

(** ** Arrays *)

Lemma shape_zeros n T K : shape (np_zeros n T K) n T.
Proof.
  unfold shape, np_zeros. rewrite length_replicate. split; [done|].
  apply Forall_replicate. by rewrite length_replicate.
Qed.

Lemma row3_zeros n T K i t :
  row3 (np_zeros n T K) i t
  = if decide (i < n ∧ t < T) then Some (replicate K 0%Q) else None.
Proof.
  unfold row3, np_zeros. case_decide as H.
  - destruct H. rewrite lookup_replicate_2 by done. simpl.
    by rewrite lookup_replicate_2.
  - destruct (decide (i < n)).
    + rewrite lookup_replicate_2 by done. simpl.
      apply lookup_replicate_None. lia.
    + rewrite (proj1 (lookup_replicate_None _ _ _)); [done|lia].
Qed.

Lemma row3_Some_shape a n T i t row :
  shape a n T → row3 a i t = Some row → i < n ∧ t < T.
Proof.
  intros [<- HT]. unfold row3.
  destruct (a !! i) as [m|] eqn:Hm; simpl; [|done]. intros Ht.
  split; [by eapply lookup_lt_Some|].
  rewrite Forall_lookup in HT. rewrite <- (HT _ _ Hm).
  by eapply lookup_lt_Some.
Qed.

(** Two arrays of the same shape with the same rows are equal. *)
Lemma array3_ext a b n T :
  shape a n T → shape b n T →
  (∀ i t, row3 a i t = row3 b i t) → a = b.
Proof.
  intros [Ha HaT] [Hb HbT] Hrows. apply list_eq. intros i.
  rewrite Forall_lookup in HaT, HbT.
  destruct (a !! i) as [m|] eqn:Hm, (b !! i) as [m'|] eqn:Hm'.
  - f_equal. apply list_eq. intros t.
    specialize (Hrows i t). unfold row3 in Hrows.
    by rewrite Hm, Hm' in Hrows.
  - apply lookup_lt_Some in Hm. apply lookup_ge_None in Hm'. lia.
  - apply lookup_lt_Some in Hm'. apply lookup_ge_None in Hm. lia.
  - done.
Qed.

(** An assignment within bounds replaces one row and nothing else. *)
Lemma set3_Ok a i t k v row :
  row3 a i t = Some row → k < length row →
  ∃ a', set3 a i t k v = Ok a'
        ∧ (∀ n T, shape a n T → shape a' n T)
        ∧ ∀ i' t', row3 a' i' t'
                   = if decide (i' = i ∧ t' = t) then Some (<[k := v]> row)
                     else row3 a i' t'.
Proof.
  unfold row3, set3.
  destruct (a !! i) as [m|] eqn:Hm; simpl; [|done].
  intros Ht Hk. rewrite Ht. rewrite decide_True by done.
  eexists. split; [done|]. split.
  - intros n T [Hn HT]. split; [by rewrite length_insert|].
    apply Forall_insert; [done|]. rewrite length_insert.
    rewrite Forall_lookup in HT. by eapply HT.
  - intros i' t'.
    assert (i < length a) by by eapply lookup_lt_Some.
    assert (t < length m) by by eapply lookup_lt_Some.
    destruct (decide (i' = i)) as [->|Hi].
    + rewrite list_lookup_insert_eq by done. simpl.
      destruct (decide (t' = t)) as [->|Hne].
      * rewrite list_lookup_insert_eq by done. by rewrite decide_True.
      * rewrite list_lookup_insert_ne by done. rewrite decide_False by tauto.
        by rewrite Hm.
    + rewrite list_lookup_insert_ne by done. by rewrite decide_False by tauto.
Qed.

Lemma set3_Raise a i t k v :
  (∀ row, row3 a i t = Some row → length row ≤ k) →
  set3 a i t k v = Raise IndexError.
Proof.
  unfold row3, set3. intros H.
  destruct (a !! i) as [m|]; simpl in *; [|done].
  destruct (m !! t) as [row|]; [|done].
  rewrite decide_False; [done|]. specialize (H row eq_refl). lia.
Qed.

(** ** The vectorisation loops *)

Lemma encode_row_hit index K c k :
  index !! c = Some k → encode_row index K (Some c) = one_hot K k.
Proof. unfold encode_row. simpl. by intros ->. Qed.

Lemma mark_input_char_indexed index i a t c k :
  index !! c = Some k →
  mark_input_char index i a (t, c) = set3 a i t k 1%Q.
Proof. unfold mark_input_char, getitem. simpl. by intros ->. Qed.

Lemma mark_target_char_indexed index i a b t c k :
  index !! c = Some k →
  mark_target_char index i (a, b) (t, c)
  = a1 ← set3 a i t k 1%Q;
    if decide (0 < t)
    then b1 ← set3 b i (t - 1) k 1%Q; Ok (a1, b1)
    else Ok (a1, b).
Proof. unfold mark_target_char, getitem. simpl. by intros ->. Qed.

(** The loop over the characters of an input text fills the rows of
    example [i] that it visits and leaves every other row as it was. *)
Lemma mark_input_chars index K i (l : str) t0 (a : array3) :
  (∀ c, c ∈ l → ∃ k, index !! c = Some k ∧ k < K) →
  (∀ t, t0 ≤ t < t0 + length l → row3 a i t = Some (replicate K 0%Q)) →
  ∃ a',
    for_each (enumerate_from t0 l) (mark_input_char index i) a = Ok a'
    ∧ (∀ n T, shape a n T → shape a' n T)
    ∧ ∀ i' t',
        row3 a' i' t'
        = if decide (i' = i ∧ t0 ≤ t' < t0 + length l)
          then Some (encode_row index K (l !! (t' - t0)))
          else row3 a i' t'.
Proof.
  revert t0 a. induction l as [|c l IH]; intros t0 a Hidx Hzero; simpl in *.
  { exists a. split; [done|]. split; [done|].
    intros i' t'. rewrite decide_False; [done|lia]. }
  destruct (Hidx c) as (k & Hk & HkK); [by left|].
  rewrite (mark_input_char_indexed _ _ _ _ _ _ Hk).
  destruct (set3_Ok a i t0 k 1%Q (replicate K 0%Q))
    as (a1 & -> & Hshape1 & Hrows1);
    [apply Hzero; lia|by rewrite length_replicate|]. simpl.
  destruct (IH (S t0) a1) as (a' & -> & Hshape' & Hrows').
  { intros c' Hc'. apply Hidx. by right. }
  { intros t Ht. rewrite Hrows1, decide_False by lia. apply Hzero. lia. }
  exists a'. split; [done|]. split; [by eauto|].
  intros i' t'. rewrite Hrows', Hrows1.
  destruct (decide (i' = i ∧ t0 ≤ t' < t0 + S (length l))) as [[-> Ht]|Hn].
  - destruct (decide (t' = t0)) as [->|Hne].
    + rewrite decide_False by lia. rewrite decide_True by done.
      rewrite Nat.sub_diag. simpl. by rewrite (encode_row_hit _ _ _ k).
    + rewrite decide_True by lia.
      by replace (t' - t0) with (S (t' - S t0)) by lia.
  - rewrite decide_False by lia. by rewrite decide_False by lia.
Qed.

(** The loop over the characters of a target text fills the visited rows
    of the decoder input, and the rows one step earlier of the decoder
    target. *)
Lemma mark_target_chars index K i (l : str) t0 (a b : array3) :
  (∀ c, c ∈ l → ∃ k, index !! c = Some k ∧ k < K) →
  (∀ t, t0 ≤ t < t0 + length l → row3 a i t = Some (replicate K 0%Q)) →
  (∀ t, t0 ≤ S t < t0 + length l → row3 b i t = Some (replicate K 0%Q)) →
  ∃ a' b',
    for_each (enumerate_from t0 l) (mark_target_char index i) (a, b)
    = Ok (a', b')
    ∧ (∀ n T, shape a n T → shape a' n T)
    ∧ (∀ n T, shape b n T → shape b' n T)
    ∧ (∀ i' t',
         row3 a' i' t'
         = if decide (i' = i ∧ t0 ≤ t' < t0 + length l)
           then Some (encode_row index K (l !! (t' - t0)))
           else row3 a i' t')
    ∧ (∀ i' t',
         row3 b' i' t'
         = if decide (i' = i ∧ t0 ≤ S t' < t0 + length l)
           then Some (encode_row index K (l !! (S t' - t0)))
           else row3 b i' t').
Proof.
  revert t0 a b.
  induction l as [|c l IH]; intros t0 a b Hidx Ha Hb; simpl in *.
  { exists a, b. split; [done|]. split; [done|]. split; [done|].
    split; intros i' t'; (rewrite decide_False; [done|lia]). }
  destruct (Hidx c) as (k & Hk & HkK); [by left|].
  rewrite (mark_target_char_indexed _ _ _ _ _ _ _ Hk).
  destruct (set3_Ok a i t0 k 1%Q (replicate K 0%Q))
    as (a1 & -> & Hshape1 & Hrows1);
    [apply Ha; lia|by rewrite length_replicate|]. simpl.
  assert (∃ b1,
            (if decide (0 < t0)
             then set3 b i (t0 - 1) k 1%Q ≫= λ b1, Ok (a1, b1)
             else Ok (a1, b)) = Ok (a1, b1)
            ∧ (∀ n T, shape b n T → shape b1 n T)
            ∧ ∀ i' t', row3 b1 i' t'
                = if decide (i' = i ∧ S t' = t0)
                  then Some (one_hot K k) else row3 b i' t')
    as (b1 & -> & Hshapeb1 & Hrowsb1).
  { destruct (decide (0 < t0)) as [Hpos|Hzero]; simpl.
    - destruct (set3_Ok b i (t0 - 1) k 1%Q (replicate K 0%Q))
        as (b1 & -> & Hs & Hr);
        [apply Hb; lia|by rewrite length_replicate|]. simpl.
      exists b1. split; [done|]. split; [done|].
      intros i' t'. rewrite Hr.
      destruct (decide (i' = i ∧ S t' = t0)).
      + by rewrite decide_True by lia.
      + by rewrite decide_False by lia.
    - exists b. split; [done|]. split; [done|].
      intros i' t'. by rewrite decide_False by lia. }
  simpl.
  destruct (IH (S t0) a1 b1) as (a' & b' & -> & Hsa & Hsb & Hra & Hrb).
  { intros c' Hc'. apply Hidx. by right. }
  { intros t Ht. rewrite Hrows1, decide_False by lia. apply Ha. lia. }
  { intros t Ht. rewrite Hrowsb1, decide_False by lia. apply Hb. lia. }
  exists a', b'. split; [done|]. split; [by eauto|]. split; [by eauto|].
  split; intros i' t'.
  - rewrite Hra, Hrows1.
    destruct (decide (i' = i ∧ t0 ≤ t' < t0 + S (length l))) as [[-> Ht]|Hn].
    + destruct (decide (t' = t0)) as [->|Hne].
      * rewrite decide_False by lia. rewrite decide_True by done.
        rewrite Nat.sub_diag. simpl. by rewrite (encode_row_hit _ _ _ k).
      * rewrite decide_True by lia.
        by replace (t' - t0) with (S (t' - S t0)) by lia.
    + rewrite decide_False by lia. by rewrite decide_False by lia.
  - rewrite Hrb, Hrowsb1.
    destruct (decide (i' = i ∧ t0 ≤ S t' < t0 + S (length l)))
      as [[-> Ht]|Hn].
    + destruct (decide (S t' = t0)) as [<-|Hne].
      * rewrite decide_False by lia. rewrite decide_True by done.
        rewrite Nat.sub_diag. simpl. by rewrite (encode_row_hit _ _ _ k).
      * rewrite decide_True by lia.
        by replace (S t' - t0) with (S (t' - t0)) by lia.
    + rewrite decide_False by lia. by rewrite decide_False by lia.
Qed.

Lemma shape_encode_text index T K (texts : list str) :
  shape (encode_text index T K <$> texts) (length texts) T.
Proof.
  split; [by rewrite length_fmap|].
  apply Forall_fmap, Forall_forall. intros s _. simpl.
  unfold encode_text. by rewrite length_fmap, length_seq.
Qed.

Lemma row3_encode_text index T K (texts : list str) i t :
  row3 (encode_text index T K <$> texts) i t
  = if decide (i < length texts ∧ t < T)
    then Some (encode_row index K (texts !! i ≫= (.!! t)))
    else None.
Proof.
  unfold row3. rewrite list_lookup_fmap.
  destruct (texts !! i) as [s|] eqn:Hs; simpl.
  - apply lookup_lt_Some in Hs as Hi. unfold encode_text.
    rewrite list_lookup_fmap.
    destruct (decide (t < T)) as [Ht|Ht].
    + rewrite lookup_seq_lt by done. simpl. by rewrite decide_True.
    + rewrite lookup_seq_ge by lia. simpl. by rewrite decide_False by lia.
  - apply lookup_ge_None in Hs. by rewrite decide_False by lia.
Qed.

Lemma mark_example_pair iti tti e ab i x y :
  mark_example iti tti (e, ab) (i, (x, y))
  = enc ← for_each (enumerate_from 0 x) (mark_input_char iti i) e;
    dec ← for_each (enumerate_from 0 y) (mark_target_char tti i) ab;
    Ok (enc, dec).
Proof. reflexivity. Qed.

Lemma mark_examples iti tti Te Ke Td Kd (exs : list (str * str))
    i0 n (e a b : array3) :
  shape e n Te → shape a n Td → shape b n Td →
  (∀ x y, (x, y) ∈ exs → encodable iti Te Ke x ∧ encodable tti Td Kd y) →
  (∀ i t, i0 ≤ i < i0 + length exs → t < Te →
          row3 e i t = Some (replicate Ke 0%Q)) →
  (∀ i t, i0 ≤ i < i0 + length exs → t < Td →
          row3 a i t = Some (replicate Kd 0%Q)) →
  (∀ i t, i0 ≤ i < i0 + length exs → t < Td →
          row3 b i t = Some (replicate Kd 0%Q)) →
  ∃ e' a' b',
    for_each (enumerate_from i0 exs) (mark_example iti tti) (e, (a, b))
    = Ok (e', (a', b'))
    ∧ shape e' n Te ∧ shape a' n Td ∧ shape b' n Td
    ∧ (∀ i t,
         row3 e' i t
         = if decide (i0 ≤ i < i0 + length exs ∧ t < Te)
           then Some (encode_row iti Ke (exs.*1 !! (i - i0) ≫= (.!! t)))
           else row3 e i t)
    ∧ (∀ i t,
         row3 a' i t
         = if decide (i0 ≤ i < i0 + length exs ∧ t < Td)
           then Some (encode_row tti Kd (exs.*2 !! (i - i0) ≫= (.!! t)))
           else row3 a i t)
    ∧ (∀ i t,
         row3 b' i t
         = if decide (i0 ≤ i < i0 + length exs ∧ t < Td)
           then Some (encode_row tti Kd (exs.*2 !! (i - i0) ≫= (.!! S t)))
           else row3 b i t).
Proof.
  revert i0 e a b.
  induction exs as [|[x y] exs IH];
    intros i0 e a b Hse Hsa Hsb Henc Hze Hza Hzb; simpl in *.
  { exists e, a, b. split; [done|]. do 3 (split; [done|]).
    repeat split; intros i t; (rewrite decide_False; [done|lia]). }
  destruct (Henc x y) as [[Hlx Hcx] [Hly Hcy]]; [by left|].
  rewrite mark_example_pair.
  destruct (mark_input_chars iti Ke i0 x 0 e Hcx)
    as (e1 & -> & Hse1 & Hre1).
  { intros t Ht. apply Hze; lia. }
  simpl.
  destruct (mark_target_chars tti Kd i0 y 0 a b Hcy)
    as (a1 & b1 & -> & Hsa1 & Hsb1 & Hra1 & Hrb1).
  { intros t Ht. apply Hza; lia. }
  { intros t Ht. apply Hzb; lia. }
  simpl.
  destruct (IH (S i0) e1 a1 b1)
    as (e' & a' & b' & -> & Hse' & Hsa' & Hsb' & Hre' & Hra' & Hrb');
    [by eauto|by eauto|by eauto|..].
  { intros x' y' Hin. apply Henc. by right. }
  { intros i t Hi Ht. rewrite Hre1, decide_False by lia. apply Hze; lia. }
  { intros i t Hi Ht. rewrite Hra1, decide_False by lia. apply Hza; lia. }
  { intros i t Hi Ht. rewrite Hrb1, decide_False by lia. apply Hzb; lia. }
  exists e', a', b'. split; [done|]. do 3 (split; [done|]).
  split; [|split]; intros i t.
  - rewrite Hre', Hre1.
    destruct (decide (i0 ≤ i < i0 + S (length exs) ∧ t < Te)) as [[Hi Ht]|Hn].
    + destruct (decide (i = i0)) as [->|Hne].
      * rewrite decide_False by lia. rewrite Nat.sub_diag. simpl.
        rewrite Nat.sub_0_r.
        case_decide; [done|].
        rewrite (lookup_ge_None_2 x t) by lia.
        rewrite Hze by lia. done.
      * rewrite decide_True by lia.
        by replace (i - i0) with (S (i - S i0)) by lia.
    + rewrite decide_False by lia. by rewrite decide_False by lia.
  - rewrite Hra', Hra1.
    destruct (decide (i0 ≤ i < i0 + S (length exs) ∧ t < Td)) as [[Hi Ht]|Hn].
    + destruct (decide (i = i0)) as [->|Hne].
      * rewrite decide_False by lia. rewrite Nat.sub_diag. simpl.
        rewrite Nat.sub_0_r.
        case_decide; [done|].
        rewrite (lookup_ge_None_2 y t) by lia.
        rewrite Hza by lia. done.
      * rewrite decide_True by lia.
        by replace (i - i0) with (S (i - S i0)) by lia.
    + rewrite decide_False by lia. by rewrite decide_False by lia.
  - rewrite Hrb', Hrb1.
    destruct (decide (i0 ≤ i < i0 + S (length exs) ∧ t < Td)) as [[Hi Ht]|Hn].
    + destruct (decide (i = i0)) as [->|Hne].
      * rewrite decide_False by lia. rewrite Nat.sub_diag. simpl.
        case_decide; [done|].
        rewrite (lookup_ge_None_2 y (S t)) by lia.
        rewrite Hzb by lia. done.
      * rewrite decide_True by lia.
        by replace (i - i0) with (S (i - S i0)) by lia.
    + rewrite decide_False by lia. by rewrite decide_False by lia.
Qed.

(** The three arrays in closed form: each text is encoded row by row, and
    the decoder target encodes the target text without its first
    character. *)
Lemma vectorize_Ok (inputs targets : list str) iti tti Te Ke Td Kd :
  length inputs = length targets →
  Forall (encodable iti Te Ke) inputs →
  Forall (encodable tti Td Kd) targets →
  vectorize inputs targets iti tti Te Ke Td Kd
  = Ok (encode_text iti Te Ke <$> inputs,
        (encode_text tti Td Kd <$> targets,
         encode_text tti Td Kd <$> (drop 1 <$> targets))).
Proof.
  intros Hlen Hin Htg. unfold vectorize, enumerate.
  rewrite Forall_forall in Hin, Htg.
  destruct (mark_examples iti tti Te Ke Td Kd (zip inputs targets) 0
              (length inputs)
              (np_zeros (length inputs) Te Ke)
              (np_zeros (length inputs) Td Kd)
              (np_zeros (length inputs) Td Kd))
    as (e' & a' & b' & -> & Hse & Hsa & Hsb & Hre & Hra & Hrb);
    try apply shape_zeros.
  { intros x y Hxy. split.
    - apply Hin. by eapply elem_of_zip_l.
    - apply Htg. by eapply elem_of_zip_r. }
  1-3: intros i t Hi Ht; rewrite length_zip in Hi;
       rewrite row3_zeros; rewrite decide_True; [done|lia].
  rewrite length_zip, fst_zip, snd_zip in * by lia.
  replace (length inputs `min` length targets) with (length inputs) in * by lia.
  f_equal. f_equal; [|f_equal].
  - apply (array3_ext _ _ (length inputs) Te);
      [done|apply shape_encode_text|].
    intros i t. rewrite Hre, row3_encode_text, row3_zeros, Nat.sub_0_r.
    destruct (decide (0 ≤ i < 0 + length inputs ∧ t < Te)).
    + by rewrite decide_True by lia.
    + rewrite decide_False by lia. by rewrite decide_False by lia.
  - apply (array3_ext _ _ (length inputs) Td);
      [done|rewrite Hlen; apply shape_encode_text|].
    intros i t. rewrite Hra, row3_encode_text, row3_zeros, Nat.sub_0_r.
    destruct (decide (0 ≤ i < 0 + length inputs ∧ t < Td)).
    + by rewrite decide_True by lia.
    + rewrite decide_False by lia. by rewrite decide_False by lia.
  - apply (array3_ext _ _ (length inputs) Td);
      [done|rewrite Hlen, <- (length_fmap (drop 1)); apply shape_encode_text|].
    intros i t.
    rewrite Hrb, row3_encode_text, row3_zeros, Nat.sub_0_r, length_fmap.
    destruct (decide (0 ≤ i < 0 + length inputs ∧ t < Td)).
    + rewrite decide_True by lia. rewrite list_lookup_fmap.
      destruct (targets !! i) as [y|]; simpl; [|done].
      by rewrite lookup_drop.
    + rewrite decide_False by lia. by rewrite decide_False by lia.
Qed.

(** ** The data-preparation cells *)

Lemma py_max_Ok l m : py_max l = Ok m → ∀ x, x ∈ l → x ≤ m.
Proof.
  destruct l as [|x0 l]; simpl; [done|]. intros [= <-].
  cut (∀ acc x, x = acc ∨ x ∈ l → x ≤ fold_left Nat.max l acc).
  { intros Hcut x [->|Hx]%elem_of_cons; apply Hcut; auto. }
  induction l as [|y l IH]; intros acc x; simpl.
  { by intros [->|?%elem_of_nil]. }
  intros [->|[->|Hx]%elem_of_cons].
  - etrans; [apply (Nat.le_max_l _ y)|]. apply IH. by left.
  - etrans; [apply (Nat.le_max_r acc)|]. apply IH. by left.
  - apply IH. by right.
Qed.

Lemma py_max_is_Ok l : l ≠ [] → ∃ m, py_max l = Ok m.
Proof. destruct l; [done|]. by eexists. Qed.

Lemma scanned_nil lines : scanned lines = [] ↔ lines = [].
Proof.
  unfold scanned. split; [|by intros ->].
  destruct lines as [|l lines]; [done|].
  intros H%fmap_nil_inv. by destruct num_samples eqn:E.
Qed.

(** Every retained text can be encoded with the index and the dimensions
    computed from the scan. *)
Lemma scan_encodable lines Te Td :
  let sc := scan_lines lines in
  let input_chars := sorted (elements (scan_input_chars sc)) in
  let target_chars := sorted (elements (scan_target_chars sc)) in
  py_max (length <$> scan_inputs sc) = Ok Te →
  py_max (length <$> scan_targets sc) = Ok Td →
  Forall (encodable (token_index input_chars) Te (length input_chars))
         (scan_inputs sc)
  ∧ Forall (encodable (token_index target_chars) Td (length target_chars))
           (scan_targets sc).
Proof.
  intros sc input_chars target_chars HTe HTd.
  destruct (scan_lines_spec lines) as (_ & _ & Hic & Htc).
  destruct (vocabulary_index_of_set (scan_input_chars sc))
    as (_ & Hdi & _ & Hri & _).
  destruct (vocabulary_index_of_set (scan_target_chars sc))
    as (_ & Hdt & _ & Hrt & _).
  split; apply Forall_forall; intros s Hs; split.
  - apply (py_max_Ok _ _ HTe). apply list_elem_of_fmap. by exists s.
  - intros c Hc.
    destruct (proj1 (Hdi c)) as [k Hk]; [apply Hic; by exists s|].
    exists k. split; [done|]. apply Hri. by exists c.
  - apply (py_max_Ok _ _ HTd). apply list_elem_of_fmap. by exists s.
  - intros c Hc.
    destruct (proj1 (Hdt c)) as [k Hk]; [apply Htc; by exists s|].
    exists k. split; [done|]. apply Hrt. by exists c.
Qed.

Lemma scan_lengths lines :
  length (scan_inputs (scan_lines lines))
  = length (scan_targets (scan_lines lines)).
Proof.
  destruct (scan_lines_spec lines) as (-> & -> & _).
  by rewrite !length_fmap.
Qed.

(** The global variables after a run of the cells, in closed form. *)
Lemma notebook_fields lines g :
  notebook lines = Ok g →
  let sc := scan_lines lines in
  inputs g = (scanned lines).*1
  ∧ targets g = (scanned lines).*2
  ∧ input_chars g = sorted (elements (scan_input_chars sc))
  ∧ target_chars g = sorted (elements (scan_target_chars sc))
  ∧ num_encoder_tokens g = length (input_chars g)
  ∧ num_decoder_tokens g = length (target_chars g)
  ∧ py_max (length <$> inputs g) = Ok (max_encoder_seq_length g)
  ∧ py_max (length <$> targets g) = Ok (max_decoder_seq_length g)
  ∧ input_token_index g = token_index (input_chars g)
  ∧ target_token_index g = token_index (target_chars g)
  ∧ reverse_input_char_index g = reverse_index (input_token_index g)
  ∧ reverse_target_char_index g = reverse_index (target_token_index g)
  ∧ encoder_input_data g
    = encode_text (input_token_index g) (max_encoder_seq_length g)
                  (num_encoder_tokens g) <$> inputs g
  ∧ decoder_input_data g
    = encode_text (target_token_index g) (max_decoder_seq_length g)
                  (num_decoder_tokens g) <$> targets g
  ∧ decoder_target_data g
    = encode_text (target_token_index g) (max_decoder_seq_length g)
                  (num_decoder_tokens g) <$> (drop 1 <$> targets g).
Proof.
  intros H sc. subst sc. unfold notebook, cells_after_scan in H. cbv zeta in H.
  destruct (scan_lines_spec lines) as (Hin & Htg & _).
  apply bind_Ok in H as (Te & HTe & H).
  apply bind_Ok in H as (Td & HTd & H).
  apply bind_Ok in H as (data & Hdata & H).
  destruct (scan_encodable lines Te Td HTe HTd) as [Hei Het].
  rewrite (vectorize_Ok _ _ _ _ _ _ _ _ (scan_lengths lines) Hei Het)
    in Hdata.
  apply Ok_inj in Hdata. subst data. apply Ok_inj in H. subst g.
  cbn [inputs targets input_chars target_chars num_encoder_tokens
       num_decoder_tokens max_encoder_seq_length max_decoder_seq_length
       input_token_index target_token_index encoder_input_data
       decoder_input_data decoder_target_data reverse_input_char_index
       reverse_target_char_index fst snd].
  split; [exact Hin|]. split; [exact Htg|].
  do 4 (split; [reflexivity|]).
  split; [exact HTe|]. split; [exact HTd|].
  repeat split; reflexivity.
Qed.

Lemma notebook_Ok lines : lines ≠ [] → ∃ g, notebook lines = Ok g.
Proof.
  intros Hne. unfold notebook, cells_after_scan. cbv zeta.
  destruct (scan_lines_spec lines) as (Hin & Htg & _).
  assert (Hsc : scanned lines ≠ []) by by rewrite scanned_nil.
  destruct (py_max_is_Ok (length <$> scan_inputs (scan_lines lines)))
    as [Te HTe].
  { rewrite Hin. by destruct (scanned lines). }
  destruct (py_max_is_Ok (length <$> scan_targets (scan_lines lines)))
    as [Td HTd].
  { rewrite Htg. by destruct (scanned lines). }
  rewrite HTe, HTd. cbn [mbind result_bind].
  destruct (scan_encodable lines Te Td HTe HTd) as [Hei Het].
  rewrite (vectorize_Ok _ _ _ _ _ _ _ _ (scan_lengths lines) Hei Het).
  cbn [mbind result_bind]. by eexists.
Qed.

Lemma notebook_empty : notebook [] = Raise ValueError.
Proof. reflexivity. Qed.

Lemma py_max_elem l m : py_max l = Ok m → m ∈ l.
Proof.
  destruct l as [|x0 l]; simpl; [done|]. intros [= <-].
  cut (∀ acc, fold_left Nat.max l acc = acc ∨ fold_left Nat.max l acc ∈ l).
  { intros Hcut. destruct (Hcut x0) as [->|?]; [by left|by right]. }
  induction l as [|y l IH]; intros acc; simpl; [by left|].
  destruct (IH (acc `max` y)) as [->|?].
  - destruct (Nat.max_spec acc y) as [[_ ->]|[_ ->]];
      [right; by left|by left].
  - right. by right.
Qed.

(** The two decoder arrays of a corpus of cut lines: for every example
    [i] with target text [y] (markers included) and every time step [t] of
    the arrays, the row [t] of [decoder_target_data] is the row [t + 1] of
    [decoder_input_data], the one-hot row of the character [y[t + 1]], when
    [t + 1] is a position of [y], and is an all-zero row otherwise. *)
Lemma decoder_target_rows (lines : list (str * str)) (g : globals) :
  notebook lines = Ok g →
  ∀ i y, targets g !! i = Some y →
    ∀ t, t < max_decoder_seq_length g →
      (S t < length y →
         ∃ row c k,
           row3 (decoder_target_data g) i t = Some row
           ∧ row3 (decoder_input_data g) i (S t) = Some row
           ∧ y !! S t = Some c
           ∧ target_token_index g !! c = Some k
           ∧ row = one_hot (num_decoder_tokens g) k)
      ∧ (length y ≤ S t →
           row3 (decoder_target_data g) i t
           = Some (replicate (num_decoder_tokens g) 0%Q)).
Proof.
  intros Hg.
  destruct (notebook_fields _ _ Hg)
    as (_ & Htg & _ & Htc & _ & HKd & _ & HTd & _ & Htti & _ & _ & _
        & -> & ->).
  intros i y Hy t Ht.
  assert (Hi : i < length (targets g)) by by eapply lookup_lt_Some.
  assert (Hly : length y ≤ max_decoder_seq_length g).
  { apply (py_max_Ok _ _ HTd). apply list_elem_of_fmap. exists y.
    split; [done|]. by eapply list_elem_of_lookup_2. }
  rewrite !row3_encode_text, length_fmap, list_lookup_fmap, Hy. simpl.
  rewrite lookup_drop. simpl.
  rewrite decide_True by done. split.
  - intros HSt. rewrite decide_True by lia.
    destruct (lookup_lt_is_Some_2 y (S t) HSt) as [c Hc].
    destruct (vocabulary_index_of_set (scan_target_chars (scan_lines lines)))
      as (_ & Hdom & _).
    destruct (scan_lines_spec lines) as (_ & Hst & _ & Hchars).
    destruct (proj1 (Hdom c)) as [k Hk].
    { apply Hchars. exists y. split; [|by eapply list_elem_of_lookup_2].
      rewrite Hst, <- Htg. by eapply list_elem_of_lookup_2. }
    rewrite <- Htc, <- Htti in Hk.
    exists (one_hot (num_decoder_tokens g) k), c, k.
    rewrite Hc, (encode_row_hit _ _ _ k) by done. done.
  - intros HSt. rewrite (lookup_ge_None_2 y (S t)) by done. done.
Qed.

(** C6: for the source and for the target side of the corpus, the
    characters indexed are those that occur in the retained texts, and the
    two dictionaries built for them are inverse of each other, use the
    indices [0] to [N - 1] once each, and number the characters in
    ascending order of their codes, whatever the order in which the set of
    characters is enumerated. *)
Theorem vocabulary_indices (lines : list (str * str)) (g : globals) :
  notebook lines = Ok g →
  (∀ c, c ∈ scan_input_chars (scan_lines lines)
        ↔ ∃ x, x ∈ inputs g ∧ c ∈ x)
  ∧ (∀ c, c ∈ scan_target_chars (scan_lines lines)
          ↔ ∃ y, y ∈ targets g ∧ c ∈ y)
  ∧ vocabulary_index (scan_input_chars (scan_lines lines))
                     (input_chars g) (input_token_index g)
                     (reverse_input_char_index g) (num_encoder_tokens g)
  ∧ vocabulary_index (scan_target_chars (scan_lines lines))
                     (target_chars g) (target_token_index g)
                     (reverse_target_char_index g) (num_decoder_tokens g).
Proof.
  intros Hg.
  destruct (notebook_fields _ _ Hg)
    as (Hin & Htg & -> & -> & -> & -> & _ & _ & -> & -> & -> & -> & _).
  destruct (scan_lines_spec lines) as (Hsi & Hst & Hci & Hct).
  rewrite Hin, Htg, <- Hsi, <- Hst.
  split; [done|]. split; [done|].
  split; apply vocabulary_index_of_set.
Qed.

(** ** Decoding with the indices of a corpus *)

Lemma scanned_targets_marked lines y :
  y ∈ (scanned lines).*2 → ∃ raw, y = TAB :: raw ++ [NEWLINE].
Proof.
  unfold scanned. rewrite <- list_fmap_compose.
  intros ([x raw] & -> & _)%list_elem_of_fmap. by eexists.
Qed.

Lemma notebook_nonempty lines g : notebook lines = Ok g → lines ≠ [].
Proof. by intros Hg ->. Qed.

(** The start marker is in the target alphabet. *)
Lemma notebook_start_marker lines g :
  notebook lines = Ok g →
  ∃ k, target_token_index g !! TAB = Some k ∧ k < num_decoder_tokens g.
Proof.
  intros Hg. pose proof (notebook_nonempty _ _ Hg) as Hne.
  destruct (notebook_fields _ _ Hg)
    as (_ & _ & _ & -> & _ & -> & _ & _ & _ & -> & _).
  destruct (vocabulary_index_of_set (scan_target_chars (scan_lines lines)))
    as (_ & Hdom & _ & Hrange & _).
  destruct (scan_lines_spec lines) as (_ & Hst & _ & Hchars).
  destruct (proj1 (Hdom TAB)) as [k Hk].
  { apply Hchars. rewrite Hst.
    destruct (scanned lines) as [|[x y] rest] eqn:Hsc;
      [by apply (proj1 (scanned_nil lines)) in Hsc|].
    destruct (scanned_targets_marked lines y) as [raw ->].
    { rewrite Hsc. by left. }
    exists (TAB :: raw ++ [NEWLINE]). split; by left. }
  exists k. split; [done|]. apply Hrange. by exists TAB.
Qed.

(** Every index below the size of the target alphabet has its
    character. *)
Lemma notebook_reverse_target lines g i :
  notebook lines = Ok g →
  i < num_decoder_tokens g →
  is_Some (reverse_target_char_index g !! i).
Proof.
  intros Hg Hi.
  destruct (notebook_fields _ _ Hg)
    as (_ & _ & _ & Htc & _ & HK & _ & _ & _ & Htti & _ & -> & _).
  rewrite Htti, Htc. rewrite HK, Htc in Hi.
  destruct (vocabulary_index_of_set (scan_target_chars (scan_lines lines)))
    as (_ & _ & Hinv & Hrange & _).
  destruct (proj1 (Hrange i) Hi) as [c Hc]. exists c. by apply Hinv.
Qed.

Lemma np_argmax_lt row i : np_argmax row = Ok i → i < length row.
Proof.
  intros [(y & Hy & _) _]%np_argmax_first. by eapply lookup_lt_Some.
Qed.

(** The loop that encodes the input sentence stops at the first character
    without an index, with [KeyError], unless the sentence has left the
    [T] time steps of the array before, which is an [IndexError]. *)
Lemma mark_input_chars_unknown index K i (l : str) t0 T (a : array3) p c :
  l !! p = Some c →
  index !! c = None →
  (∀ t c', t < p → l !! t = Some c' → ∃ k, index !! c' = Some k ∧ k < K) →
  t0 ≤ T →
  (∀ t, t0 ≤ t < T → row3 a i t = Some (replicate K 0%Q)) →
  (∀ t, T ≤ t → row3 a i t = None) →
  for_each (enumerate_from t0 l) (mark_input_char index i) a
  = Raise (if decide (t0 + p ≤ T) then KeyError else IndexError).
Proof.
  revert t0 a p.
  induction l as [|c0 l IH]; intros t0 a p Hp Hc Hknown Ht0 Hzero Hnone;
    [done|]. simpl.
  destruct p as [|p]; simpl in Hp.
  - injection Hp as ->. unfold mark_input_char, getitem. simpl.
    rewrite Hc. simpl. by rewrite decide_True by lia.
  - destruct (Hknown 0 c0) as (k & Hk & HkK); [lia|done|].
    rewrite (mark_input_char_indexed _ _ _ _ _ _ Hk).
    destruct (decide (t0 < T)) as [Hlt|Hge].
    + destruct (set3_Ok a i t0 k 1%Q (replicate K 0%Q))
        as (a1 & -> & _ & Hrows1);
        [apply Hzero; lia|by rewrite length_replicate|]. simpl.
      rewrite (IH (S t0) a1 p Hp Hc); [|..|lia| |].
      * by replace (S t0 + p) with (t0 + S p) by lia.
      * intros t c' Ht Hc'. apply (Hknown (S t)); [lia|done].
      * intros t Ht. rewrite Hrows1, decide_False by lia. apply Hzero. lia.
      * intros t Ht. rewrite Hrows1, decide_False by lia. by apply Hnone.
    + rewrite set3_Raise.
      * simpl. by rewrite decide_False by lia.
      * intros row. rewrite Hnone by lia. done.
Qed.

Section DecodingOnCorpus.
Context {vec : Type}.
Variable encoder_model : array3 → vec * vec.
Variable decoder_model : array3 → vec * vec → array3 * (vec * vec).
Variable lines : list (str * str).
Variable g : globals.
Hypothesis Hg : notebook lines = Ok g.

Abbreviation loop_body := (loop_body decoder_model g).
Abbreviation while_loop := (while_loop decoder_model g).
Abbreviation loop_run := (loop_run decoder_model g).
Abbreviation initial_state := (initial_state encoder_model g).
Abbreviation decode_sentence :=
  (decode_sentence encoder_model decoder_model g).
Abbreviation decode_run := (decode_run encoder_model decoder_model g).

Lemma input_seq_of_encodable (s : str) :
  encodable (input_token_index g) (max_encoder_seq_length g)
            (num_encoder_tokens g) s →
  ∃ a, input_seq_of g s = Ok a.
Proof.
  intros [Hlen Hchars]. unfold input_seq_of, enumerate.
  destruct (mark_input_chars (input_token_index g) (num_encoder_tokens g)
              0 s 0
              (np_zeros 1 (max_encoder_seq_length g) (num_encoder_tokens g))
              Hchars) as (a & -> & _).
  - intros t Ht. rewrite row3_zeros. by rewrite decide_True by lia.
  - by exists a.
Qed.

Lemma initial_state_encodable (s : str) :
  encodable (input_token_index g) (max_encoder_seq_length g)
            (num_encoder_tokens g) s →
  ∃ st0, initial_state s = Ok st0.
Proof.
  intros Hs. unfold initial_state.
  destruct (input_seq_of_encodable s Hs) as [a ->]. simpl.
  destruct (notebook_start_marker _ _ Hg) as (k & Hk & HkK).
  unfold getitem. rewrite Hk. simpl.
  unfold set3, np_zeros. simpl. rewrite length_replicate.
  rewrite decide_True by done. simpl. by eexists.
Qed.

Lemma loop_body_well_shaped (st : loop_state vec) :
  well_shaped decoder_model (num_decoder_tokens g) →
  ∃ st', loop_body st = Ok st'.
Proof.
  intros Hshape. unfold loop_body.
  destruct (Hshape (target_seq st) (states_value st)) as (row & -> & Hlen).
  simpl.
  destruct (notebook_start_marker _ _ Hg) as (k & _ & HkK).
  destruct (np_argmax row) as [i|] eqn:Hi; simpl.
  - pose proof (np_argmax_lt _ _ Hi) as Hlt. rewrite Hlen in Hlt.
    destruct (notebook_reverse_target _ _ i Hg Hlt) as [c Hc].
    unfold getitem. rewrite Hc. simpl.
    unfold set3, np_zeros. simpl. rewrite length_replicate.
    destruct (decide (i < num_decoder_tokens g)); [|done].
    simpl. by eexists.
  - destruct row; [simpl in Hlen; lia|done].
Qed.

Lemma loop_run_well_shaped (st : loop_state vec) n r :
  well_shaped decoder_model (num_decoder_tokens g) →
  loop_run st n r → ∃ st', r = Ok st'.
Proof.
  intros Hshape. induction 1 as [st Hs|st e Hs Hb|st st1 n r Hs Hb _ IH].
  - by eexists.
  - destruct (loop_body_well_shaped st Hshape) as [st' Hst']. congruence.
  - done.
Qed.

(** A sentence that can be encoded is translated without an exception. *)
Lemma decode_sentence_returns (s : str) :
  well_shaped decoder_model (num_decoder_tokens g) →
  encodable (input_token_index g) (max_encoder_seq_length g)
            (num_encoder_tokens g) s →
  ∃ out, decode_sentence s = Ok out.
Proof.
  intros Hshape Hs. unfold decode_sentence.
  destruct (initial_state_encodable s Hs) as [st0 ->]. simpl.
  destruct (loop_run_total decoder_model g st0) as [n Hn].
  destruct (loop_run_well_shaped _ _ _ Hshape Hn) as [st' ->].
  simpl. by eexists.
Qed.

(** C9: the empty sentence is encoded as an all-zero array, its
    translation does not raise, and the loop body is executed at least
    once. *)
Theorem empty_sentence_decodes :
  well_shaped decoder_model (num_decoder_tokens g) →
  input_seq_of g []
  = Ok (np_zeros 1 (max_encoder_seq_length g) (num_encoder_tokens g))
  ∧ ∃ out n,
      decode_sentence [] = Ok out
      ∧ decode_run [] n (Ok out)
      ∧ 1 ≤ n.
Proof.
  intros Hshape. split; [done|].
  destruct (decode_sentence_returns [] Hshape) as [out Hout].
  { split; [simpl; lia|]. by intros c ?%elem_of_nil. }
  destruct (decode_run_total encoder_model decoder_model g []) as [n Hn].
  rewrite Hout in Hn. exists out, n. split; [done|]. split; [done|].
  destruct (decode_run_Ok _ _ _ _ _ _ Hn) as (body & c & _ & -> & _). lia.
Qed.

(** C8, as amended: a sentence with a character that has no index in
    [input_token_index] is not translated: the call raises [KeyError] at
    the first such character, or [IndexError] when the sentence has more
    than [max_encoder_seq_length] characters before it; no index is
    substituted and no row is left at zero for it. *)
Theorem unknown_character_raises (input_sentence : str) p c :
  input_sentence !! p = Some c →
  input_token_index g !! c = None →
  (∀ t c', t < p → input_sentence !! t = Some c' →
           is_Some (input_token_index g !! c')) →
  decode_sentence input_sentence
  = Raise (if decide (p ≤ max_encoder_seq_length g)
           then KeyError else IndexError).
Proof.
  intros Hp Hc Hknown.
  unfold decode_sentence, initial_state, input_seq_of, enumerate.
  rewrite (mark_input_chars_unknown (input_token_index g)
             (num_encoder_tokens g) 0 input_sentence 0
             (max_encoder_seq_length g) _ p c Hp Hc); [done|..].
  - intros t c' Ht Hc'. destruct (Hknown t c' Ht Hc') as [k Hk].
    exists k. split; [done|].
    destruct (notebook_fields _ _ Hg)
      as (_ & _ & Hic & _ & HK & _ & _ & _ & Hiti & _).
    rewrite Hiti, Hic in Hk. rewrite HK, Hic.
    destruct (vocabulary_index_of_set (scan_input_chars (scan_lines lines)))
      as (_ & _ & _ & Hrange & _).
    apply Hrange. by exists c'.
  - lia.
  - intros t Ht. rewrite row3_zeros. by rewrite decide_True by lia.
  - intros t Ht. rewrite row3_zeros. by rewrite decide_False by lia.
Qed.

End DecodingOnCorpus.

(** A corpus of cut lines in which no character occurs in a source text:
    either it is empty and the cells stop with the [ValueError] of [max]
    on the empty list of lengths, or every source text is empty, the cells
    run without an exception and the encoder input is an array of shape
    [(n, 0, 0)]. *)
Lemma empty_alphabet_pairs (lines : list (str * str)) :
  scan_input_chars (scan_lines lines) = ∅ →
  (lines = []
   ∧ py_max (length <$> scan_inputs (scan_lines lines)) = Raise ValueError
   ∧ notebook lines = Raise ValueError)
  ∨ (lines ≠ []
     ∧ ∃ g, notebook lines = Ok g
            ∧ (∀ x, x ∈ inputs g → x = [])
            ∧ num_encoder_tokens g = 0
            ∧ max_encoder_seq_length g = 0
            ∧ encoder_input_data g = replicate (length (inputs g)) []).
Proof.
  intros Hempty. destruct (decide (lines = [])) as [->|Hne].
  { left. by repeat split. }
  right. split; [done|].
  destruct (notebook_Ok lines Hne) as [g Hg]. exists g. split; [done|].
  destruct (notebook_fields _ _ Hg)
    as (Hin & _ & Hic & _ & HK & _ & HTe & _ & _ & _ & _ & _ & -> & _).
  destruct (scan_lines_spec lines) as (Hsi & _ & Hci & _).
  rewrite Hempty in Hic. rewrite Hic in HK.
  assert (Hall : ∀ x, x ∈ inputs g → x = []).
  { intros x Hx. destruct x as [|c x]; [done|]. exfalso.
    apply (not_elem_of_empty (C:=gset ascii) c). rewrite <- Hempty.
    apply Hci. exists (c :: x). split; [by rewrite Hsi, <- Hin|by left]. }
  assert (HT0 : max_encoder_seq_length g = 0).
  { apply py_max_elem in HTe.
    apply list_elem_of_fmap in HTe as (x & -> & Hx).
    by rewrite (Hall x Hx). }
  split; [done|]. split; [done|]. split; [done|]. rewrite HT0.
  apply list_eq. intros i. rewrite list_lookup_fmap.
  destruct (inputs g !! i) as [x|] eqn:Hx; simpl.
  - rewrite lookup_replicate_2; [done|]. by eapply lookup_lt_Some.
  - symmetry. apply lookup_replicate_None. by apply lookup_ge_None.
Qed.

(** ** The scripted models on the small corpus *)

Lemma demo_globals_Ok : notebook demo_lines = Ok demo_globals.
Proof. vm_compute. reflexivity. Qed.

Ltac run_decode :=
  lazymatch goal with
  | |- decode_run ?e ?d ?g ?s _ (Ok ?out) =>
      exact (decode_run_computed e d g s out ltac:(vm_compute; reflexivity))
  end.

Lemma only_a_run :
  decode_run demo_encoder only_a_decoder demo_globals sentence_b
             7 (Ok (text "aaaaaaa")).
Proof. run_decode. Qed.

Lemma five_a_text :
  decode_sentence demo_encoder five_a_decoder demo_globals sentence_b
  = Ok (text "aaaaa" ++ [NEWLINE]).
Proof. vm_compute. reflexivity. Qed.

Lemma six_a_text :
  decode_sentence demo_encoder six_a_decoder demo_globals sentence_b
  = Ok (text "aaaaaa" ++ [NEWLINE]).
Proof. vm_compute. reflexivity. Qed.

Lemma only_a_text :
  decode_sentence demo_encoder only_a_decoder demo_globals sentence_b
  = Ok (text "aaaaaaa").
Proof. vm_compute. reflexivity. Qed.

Lemma tab_text :
  decode_sentence demo_encoder tab_decoder demo_globals sentence_b
  = Ok [TAB; NEWLINE].
Proof. vm_compute. reflexivity. Qed.

(** C1 fails as stated: with the decoder that samples ['a'] five times and
    then the end marker, ["b"] is translated to ["aaaaa\n"], end marker
    included; and a decoder that samples the start marker gets it into the
    text. *)
Lemma end_marker_is_returned :
  decode_sentence demo_encoder five_a_decoder demo_globals sentence_b
    = Ok (text "aaaaa" ++ [NEWLINE])
  ∧ NEWLINE ∈ text "aaaaa" ++ [NEWLINE]
  ∧ decode_sentence demo_encoder tab_decoder demo_globals sentence_b
    = Ok [TAB; NEWLINE]
  ∧ TAB ∈ [TAB; NEWLINE].
Proof.
  split; [exact five_a_text|]. split; [set_solver|].
  split; [exact tab_text|]. set_solver.
Qed.

Lemma end_marker_only_last_witness :
  decode_sentence demo_encoder five_a_decoder demo_globals sentence_b
    = Ok (text "aaaaa" ++ [NEWLINE])
  ∧ (∀ i, (text "aaaaa" ++ [NEWLINE]) !! i = Some NEWLINE → S i = 6)
  ∧ (6 ≤ max_decoder_seq_length demo_globals
     → last (text "aaaaa" ++ [NEWLINE]) = Some NEWLINE).
Proof.
  split; [vm_compute; reflexivity|].
  apply (end_marker_only_last demo_encoder five_a_decoder demo_globals
           sentence_b (text "aaaaa" ++ [NEWLINE])).
  vm_compute; reflexivity.
Defined.

(** C4 fails as stated: the longest target of the small corpus has 6
    characters, and with a decoder that never samples the end marker the
    loop body is executed 7 times. *)
Lemma loop_body_runs_past_bound :
  decode_run demo_encoder only_a_decoder demo_globals sentence_b
             7 (Ok (text "aaaaaaa"))
  ∧ max_decoder_seq_length demo_globals = 6
  ∧ ¬ (∀ n r,
         decode_run demo_encoder only_a_decoder demo_globals sentence_b n r
         → n ≤ max_decoder_seq_length demo_globals).
Proof.
  split; [exact only_a_run|]. split; [reflexivity|].
  intros H. specialize (H _ _ only_a_run). vm_compute in H. lia.
Qed.

Lemma loop_body_executions_witness :
  decode_run demo_encoder only_a_decoder demo_globals sentence_b
             7 (Ok (text "aaaaaaa"))
  ∧ 7 ≤ S (max_decoder_seq_length demo_globals)
  ∧ ∀ out, Ok (text "aaaaaaa") = Ok out → 7 = length out.
Proof.
  split; [run_decode|].
  apply (loop_body_executions demo_encoder only_a_decoder demo_globals
           sentence_b 7 (Ok (text "aaaaaaa"))).
  run_decode.
Defined.

(** C10 fails as stated where it says that exactly one of the two shapes
    describes a result: when the end marker is the character sampled at
    execution [max_decoder_seq_length + 1], the text ends with the end
    marker and has [max_decoder_seq_length + 1] characters. *)
Lemma both_exit_shapes :
  decode_sentence demo_encoder six_a_decoder demo_globals sentence_b
    = Ok (text "aaaaaa" ++ [NEWLINE])
  ∧ last (text "aaaaaa" ++ [NEWLINE]) = Some NEWLINE
  ∧ length (text "aaaaaa" ++ [NEWLINE])
    = S (max_decoder_seq_length demo_globals).
Proof. split; [exact six_a_text|]. split; reflexivity. Qed.

Lemma decoded_text_shape_witness :
  decode_sentence demo_encoder only_a_decoder demo_globals sentence_b
    = Ok (text "aaaaaaa")
  ∧ text "aaaaaaa" ≠ []
  ∧ 7 ≤ S (max_decoder_seq_length demo_globals)
  ∧ (last (text "aaaaaaa") = Some NEWLINE
     ∨ 7 = S (max_decoder_seq_length demo_globals)).
Proof.
  split; [vm_compute; reflexivity|].
  apply (decoded_text_shape demo_encoder only_a_decoder demo_globals
           sentence_b (text "aaaaaaa")).
  vm_compute; reflexivity.
Defined.

Lemma greedy_step_lowest_index_witness :
  loop_body tie_decoder demo_globals demo_state0 = Ok tie_state1
  ∧ ∃ row i c,
      first_last_row
        (tie_decoder (target_seq demo_state0) (states_value demo_state0)).1
        = Ok row
      ∧ attains_max row i
      ∧ (∀ j, attains_max row j → i ≤ j)
      ∧ (∀ i', attains_max row i' → (∀ j, attains_max row j → i' ≤ j)
               → i' = i)
      ∧ reverse_target_char_index demo_globals !! i = Some c
      ∧ decoded_sentence tie_state1 = decoded_sentence demo_state0 ++ [c]
      ∧ target_seq tie_state1
        = [[one_hot (num_decoder_tokens demo_globals) i]].
Proof.
  split; [vm_compute; reflexivity|].
  apply (greedy_step_lowest_index tie_decoder demo_globals
           demo_state0 tie_state1).
  vm_compute; reflexivity.
Defined.

(** On the tying distribution [1/4, 3/8, 6/16, 0] the scan answers 1. *)
Lemma np_argmax_tie :
  np_argmax [(1 # 4)%Q; (3 # 8)%Q; (6 # 16)%Q; 0%Q] = Ok 1.
Proof. reflexivity. Qed.

(** The two decoder arrays of the small corpus: the target text is
    ["\tabab\n"], of indices 0, 2, 3, 2, 3, 1. *)
Lemma demo_decoder_arrays :
  decoder_input_data demo_globals
  = [[one_hot 4 0; one_hot 4 2; one_hot 4 3; one_hot 4 2; one_hot 4 3;
      one_hot 4 1]]
  ∧ decoder_target_data demo_globals
    = [[one_hot 4 2; one_hot 4 3; one_hot 4 2; one_hot 4 3; one_hot 4 1;
        replicate 4 0%Q]].
Proof. split; vm_compute; reflexivity. Qed.

Lemma vocabulary_indices_witness :
  notebook demo_lines = Ok demo_globals
  ∧ (∀ c, c ∈ scan_input_chars (scan_lines demo_lines)
          ↔ ∃ x, x ∈ inputs demo_globals ∧ c ∈ x)
  ∧ (∀ c, c ∈ scan_target_chars (scan_lines demo_lines)
          ↔ ∃ y, y ∈ targets demo_globals ∧ c ∈ y)
  ∧ vocabulary_index (scan_input_chars (scan_lines demo_lines))
                     (input_chars demo_globals)
                     (input_token_index demo_globals)
                     (reverse_input_char_index demo_globals)
                     (num_encoder_tokens demo_globals)
  ∧ vocabulary_index (scan_target_chars (scan_lines demo_lines))
                     (target_chars demo_globals)
                     (target_token_index demo_globals)
                     (reverse_target_char_index demo_globals)
                     (num_decoder_tokens demo_globals).
Proof.
  split; [vm_compute; reflexivity|].
  apply (vocabulary_indices demo_lines demo_globals).
  vm_compute; reflexivity.
Defined.

(** The target alphabet of the small corpus, in index order. *)
Lemma demo_target_chars :
  target_chars demo_globals = [TAB; NEWLINE; "a"%char; "b"%char]
  ∧ reverse_target_char_index demo_globals !! 2 = Some "a"%char.
Proof. split; vm_compute; reflexivity. Qed.

(** C7 fails as stated: on the empty corpus the exception is the
    [ValueError] of [max], there is no [ConfigurationError]; and a corpus
    whose only source text is empty has a source alphabet of size zero and
    is vectorised, without an exception, into an encoder input with one
    matrix of no rows. *)
Lemma configuration_error_absent :
  notebook [] = Raise ValueError
  ∧ error_name ValueError ≠ "ConfigurationError"%string
  ∧ scan_input_chars (scan_lines empty_source_lines) = ∅
  ∧ ∃ g, notebook empty_source_lines = Ok g
         ∧ num_encoder_tokens g = 0
         ∧ encoder_input_data g = [[]].
Proof.
  split; [reflexivity|]. split; [done|]. split; [vm_compute; reflexivity|].
  eexists. split; [vm_compute; reflexivity|]. split; reflexivity.
Qed.

(** C8 fails as stated: the exception for a character without an index is
    Python's [KeyError], there is no [OutOfVocabulary] error; and in
    ["bbc"], longer than the one time step of the encoder input, the call
    stops on the second character with an [IndexError], before it reaches
    the unknown ["c"]. *)
Lemma unknown_character_errors :
  input_token_index demo_globals !! "c"%char = None
  ∧ decode_sentence demo_encoder five_a_decoder demo_globals (text "c")
    = Raise KeyError
  ∧ error_name KeyError ≠ "OutOfVocabulary"%string
  ∧ max_encoder_seq_length demo_globals = 1
  ∧ decode_sentence demo_encoder five_a_decoder demo_globals (text "bbc")
    = Raise IndexError
  ∧ error_name IndexError ≠ "OutOfVocabulary"%string.
Proof.
  split; [vm_compute; reflexivity|]. split; [vm_compute; reflexivity|].
  split; [done|]. split; [reflexivity|].
  split; [vm_compute; reflexivity|]. done.
Qed.

Lemma unknown_character_raises_witness :
  notebook demo_lines = Ok demo_globals
  ∧ text "bc" !! 1 = Some "c"%char
  ∧ input_token_index demo_globals !! "c"%char = None
  ∧ (∀ t c', t < 1 → text "bc" !! t = Some c' →
             is_Some (input_token_index demo_globals !! c'))
  ∧ decode_sentence demo_encoder five_a_decoder demo_globals (text "bc")
    = Raise (if decide (1 ≤ max_encoder_seq_length demo_globals)
             then KeyError else IndexError).
Proof.
  assert (Hknown : ∀ t c', t < 1 → text "bc" !! t = Some c' →
                     is_Some (input_token_index demo_globals !! c')).
  { intros [|t] c' Ht; [|lia]. intros [= <-]. by eexists. }
  split; [vm_compute; reflexivity|]. split; [reflexivity|].
  split; [vm_compute; reflexivity|]. split; [exact Hknown|].
  apply (unknown_character_raises demo_encoder five_a_decoder
           demo_lines demo_globals demo_globals_Ok (text "bc") 1 "c"%char);
    [reflexivity|vm_compute; reflexivity|exact Hknown].
Defined.

Lemma scripted_decoder_well_shaped script otherwise :
  well_shaped (scripted_decoder script otherwise) 4.
Proof.
  intros x st. eexists. split; [reflexivity|].
  unfold one_hot. by rewrite length_insert, length_replicate.
Qed.

Lemma empty_sentence_decodes_witness :
  notebook demo_lines = Ok demo_globals
  ∧ well_shaped five_a_decoder (num_decoder_tokens demo_globals)
  ∧ input_seq_of demo_globals []
    = Ok (np_zeros 1 (max_encoder_seq_length demo_globals)
                   (num_encoder_tokens demo_globals))
  ∧ ∃ out n,
      decode_sentence demo_encoder five_a_decoder demo_globals [] = Ok out
      ∧ decode_run demo_encoder five_a_decoder demo_globals [] n (Ok out)
      ∧ 1 ≤ n.
Proof.
  split; [vm_compute; reflexivity|].
  split; [apply scripted_decoder_well_shaped|].
  apply (empty_sentence_decodes demo_encoder five_a_decoder
           demo_lines demo_globals).
  - vm_compute; reflexivity.
  - apply scripted_decoder_well_shaped.
Defined.

(** The empty sentence with the five-['a'] decoder. *)
Lemma empty_sentence_text :
  decode_sentence demo_encoder five_a_decoder demo_globals []
  = Ok (text "aaaaa" ++ [NEWLINE]).
Proof. vm_compute. reflexivity. Qed.

(** ** The corpus file *)

Lemma py_split_no_sep sep (s : str) : sep ∉ s → py_split sep s = [s].
Proof.
  induction s as [|c s IH]; [done|]. intros [Hc Hs]%not_elem_of_cons.
  simpl. rewrite decide_False by done. by rewrite IH.
Qed.

Lemma py_split_app sep (x rest : str) :
  sep ∉ x → py_split sep (x ++ sep :: rest) = x :: py_split sep rest.
Proof.
  induction x as [|c x IH]; simpl.
  { intros _. by rewrite decide_True. }
  intros [Hc Hx]%not_elem_of_cons.
  rewrite decide_False by done. by rewrite IH.
Qed.

(** A text is its fields but the last, each followed by the separator,
    and then its last field. *)
Lemma py_split_decompose sep (s : str) :
  ∃ fields last,
    py_split sep s = fields ++ [last]
    ∧ Forall (λ f, sep ∉ f) fields
    ∧ (sep ∉ last)
    ∧ s = concat ((λ f, f ++ [sep]) <$> fields) ++ last.
Proof.
  induction s as [|c s (fields & last & Hsplit & Hfields & Hlast & Hs)].
  { exists [], []. repeat split; [done|]. by apply not_elem_of_nil. }
  simpl. destruct (decide (c = sep)) as [->|Hc].
  - exists ([] :: fields), last. rewrite Hsplit. repeat split; try done.
    + constructor; [by apply not_elem_of_nil|done].
    + simpl. by f_equal.
  - rewrite Hsplit. destruct fields as [|f fields]; simpl.
    + exists [], (c :: last). repeat split; try done.
      * by apply not_elem_of_cons.
      * simpl. by f_equal.
    + exists ((c :: f) :: fields), last.
      apply Forall_cons in Hfields as [Hf Hfields].
      repeat split; try done.
      * constructor; [by apply not_elem_of_cons|done].
      * simpl. by f_equal.
Qed.

Lemma py_split_compose sep (fields : list str) (last : str) :
  Forall (λ f, sep ∉ f) fields →
  sep ∉ last →
  py_split sep (concat ((λ f, f ++ [sep]) <$> fields) ++ last)
  = fields ++ [last].
Proof.
  intros Hfields Hlast.
  induction Hfields as [|f fields Hf _ IH].
  { by apply py_split_no_sep. }
  rewrite fmap_cons, concat_cons, <- !app_assoc. cbn [app].
  by rewrite py_split_app, IH.
Qed.

Lemma drop_last_snoc {A} (l : list A) x : drop_last (l ++ [x]) = l.
Proof.
  unfold drop_last. rewrite length_app. simpl.
  replace (length l + 1 - 1) with (length l) by lia.
  apply take_app_length.
Qed.

Lemma split_line_Ok (line : str) (p : str * str) :
  split_line line = Ok p ↔ cut_at_tab line p.
Proof.
  destruct p as [x y]. unfold split_line, cut_at_tab. simpl. split.
  - destruct (py_split_decompose TAB line)
      as (fields & last & Hsplit & Hfields & Hlast & Hline).
    rewrite Hsplit.
    destruct fields as [|f1 [|f2 fields]]; simpl; try done.
    + intros [= <- <-]. apply Forall_cons in Hfields as [Hf1 _].
      rewrite fmap_cons, fmap_nil, concat_cons, concat_nil, app_nil_r,
        <- app_assoc in Hline. done.
    + by destruct fields.
  - intros (-> & Hx & Hy).
    by rewrite py_split_app, py_split_no_sep.
Qed.

Lemma split_line_Raise (line : str) e :
  split_line line = Raise e → e = ValueError.
Proof.
  unfold split_line.
  by destruct (py_split TAB line) as [|? [|? [|? ?]]]; intros [= <-].
Qed.

(** X1: [x_seq, y_seq = line.split('\t')] succeeds exactly on the lines
    with one tabulation, which it cuts at that tabulation; on any other
    line (no tabulation, or more than one) it raises [ValueError]. *)
Theorem split_line_spec (line : str) :
  (∀ x_seq y_seq,
     split_line line = Ok (x_seq, y_seq) ↔ cut_at_tab line (x_seq, y_seq))
  ∧ (split_line line = Raise ValueError ↔ ¬ ∃ p, cut_at_tab line p)
  ∧ ∀ e, split_line line = Raise e → e = ValueError.
Proof.
  split; [intros x y; apply split_line_Ok|]. split.
  - split.
    + intros Hraise [p Hcut]. apply split_line_Ok in Hcut. congruence.
    + intros Hnone. destruct (split_line line) as [p|e] eqn:Hs.
      * exfalso. apply Hnone. exists p. by apply split_line_Ok.
      * by rewrite (split_line_Raise _ _ Hs).
  - apply split_line_Raise.
Qed.

(** X2: [read_lines] returns the lines of the file that end with a
    newline, in order and without the newline; what follows the last
    newline is dropped, be it the empty end of a well-formed file or a
    last line that was not terminated. *)
Theorem read_lines_spec (content : str) (lines : list str) :
  read_lines content = lines
  ↔ ∃ rest,
      Forall (λ line, NEWLINE ∉ line) lines
      ∧ (NEWLINE ∉ rest)
      ∧ content = concat ((λ line, line ++ [NEWLINE]) <$> lines) ++ rest.
Proof.
  unfold read_lines. split.
  - intros <-.
    destruct (py_split_decompose NEWLINE content)
      as (fields & last & Hsplit & Hfields & Hlast & Hcontent).
    rewrite Hsplit, drop_last_snoc. by exists last.
  - intros (rest & Hlines & Hrest & ->).
    by rewrite py_split_compose, drop_last_snoc.
Qed.

Lemma take_min_length {A} (l : list A) n :
  take (Nat.min n (length l)) l = take n l.
Proof.
  destruct (decide (n ≤ length l)) as [Hle|Hgt].
  - by rewrite Nat.min_l.
  - rewrite Nat.min_r by lia. by rewrite !take_ge by lia.
Qed.

Lemma scan_lines_short (pairs : list (str * str)) :
  length pairs ≤ num_samples →
  scan_lines pairs
  = fold_left scan_line pairs
              {| scan_inputs := []; scan_targets := [];
                 scan_input_chars := ∅; scan_target_chars := ∅ |}.
Proof.
  intros Hlen. unfold scan_lines.
  by rewrite take_min_length, take_ge.
Qed.

Lemma scan_raw_line_eq (sc : corpus_scan) (line : str) :
  scan_raw_line sc line = split_line line ≫= λ p, Ok (scan_line sc p).
Proof. reflexivity. Qed.

(** The loop on raw lines cuts each line and scans the pairs. *)
Lemma scan_raw_fold (raw : list str) (sc0 sc : corpus_scan) :
  for_each raw scan_raw_line sc0 = Ok sc
  ↔ ∃ pairs, Forall2 cut_at_tab raw pairs
             ∧ sc = fold_left scan_line pairs sc0.
Proof.
  revert sc0. induction raw as [|line raw IH]; intros sc0; cbn [for_each].
  - split.
    + intros [= <-]. exists []. by split.
    + intros (pairs & ->%Forall2_nil_inv_l & ->). done.
  - rewrite scan_raw_line_eq.
    destruct (split_line line) as [p|e] eqn:Hp; cbn [mbind result_bind].
    + rewrite IH. split.
      * intros (pairs & Hall & ->). exists (p :: pairs).
        apply split_line_Ok in Hp. split; [by constructor|done].
      * intros (pairs & Hall & ->).
        apply Forall2_cons_inv_l in Hall as (p' & pairs' & Hp' & Hall & ->).
        apply split_line_Ok in Hp'. rewrite Hp in Hp'. injection Hp' as <-.
        by exists pairs'.
    + split; [done|]. intros (pairs & Hall & _).
      apply Forall2_cons_inv_l in Hall as (p' & pairs' & Hp' & _).
      apply split_line_Ok in Hp'. congruence.
Qed.

Lemma scan_raw_fold_Raise (raw : list str) (sc0 : corpus_scan) e :
  for_each raw scan_raw_line sc0 = Raise e →
  e = ValueError ∧ ∃ line, line ∈ raw ∧ ¬ ∃ p, cut_at_tab line p.
Proof.
  revert sc0.
  induction raw as [|line raw IH]; intros sc0; cbn [for_each]; [done|].
  rewrite scan_raw_line_eq.
  destruct (split_line line) as [p|e'] eqn:Hp; cbn [mbind result_bind].
  - intros (-> & line' & Hin & Hbad)%IH. split; [done|].
    exists line'. split; [by right|done].
  - intros [= <-]. split; [by eapply split_line_Raise|].
    exists line. split; [by left|].
    intros [p Hcut]. apply split_line_Ok in Hcut. congruence.
Qed.

Lemma scan_raw_lines_Ok (lines : list str) (sc : corpus_scan) :
  scan_raw_lines lines = Ok sc
  ↔ ∃ pairs, Forall2 cut_at_tab (take num_samples lines) pairs
             ∧ sc = scan_lines pairs.
Proof.
  unfold scan_raw_lines. rewrite take_min_length, scan_raw_fold.
  split; intros (pairs & Hall & ->); exists pairs; (split; [done|]).
  - rewrite scan_lines_short; [done|].
    rewrite <- (Forall2_length _ _ _ Hall), length_take. lia.
  - rewrite scan_lines_short; [done|].
    rewrite <- (Forall2_length _ _ _ Hall), length_take. lia.
Qed.

(** X3: the scanning loop on the lines of the file splits only the first
    [num_samples] lines. It succeeds exactly when each of them has one
    tabulation, and then leaves the accumulators that [scan_lines] builds
    from the pairs obtained by cutting each line at its tabulation; it
    raises [ValueError] otherwise, one of those lines being malformed. *)
Theorem scan_raw_lines_spec (lines : list str) :
  (∀ sc, scan_raw_lines lines = Ok sc
         ↔ ∃ pairs, Forall2 cut_at_tab (take num_samples lines) pairs
                    ∧ sc = scan_lines pairs)
  ∧ ∀ e, scan_raw_lines lines = Raise e →
         e = ValueError
         ∧ ∃ line, line ∈ take num_samples lines
                   ∧ ¬ ∃ p, cut_at_tab line p.
Proof.
  split; [apply scan_raw_lines_Ok|].
  unfold scan_raw_lines. rewrite take_min_length.
  apply scan_raw_fold_Raise.
Qed.

(** X4: after the scan of the lines read from a file, no source text
    holds a tabulation or a newline, and every target text is a text
    without tabulation or newline between the start marker and the end
    marker: each marker occurs once in it, the start marker first and the
    end marker last. *)
Theorem scanned_texts_well_marked (content : str) (sc : corpus_scan) :
  scan_raw_lines (read_lines content) = Ok sc →
  Forall (λ x_seq, (TAB ∉ x_seq) ∧ NEWLINE ∉ x_seq) (scan_inputs sc)
  ∧ Forall (λ y_seq, ∃ raw, y_seq = TAB :: raw ++ [NEWLINE]
                            ∧ (TAB ∉ raw) ∧ NEWLINE ∉ raw)
           (scan_targets sc).
Proof.
  intros (pairs & Hall & ->)%scan_raw_lines_Ok.
  assert (Hlen : length pairs ≤ num_samples).
  { rewrite <- (Forall2_length _ _ _ Hall), length_take. lia. }
  assert (Hpairs : ∀ p, p ∈ pairs →
            (TAB ∉ p.1) ∧ (TAB ∉ p.2) ∧ (NEWLINE ∉ p.1) ∧ NEWLINE ∉ p.2).
  { intros p [i Hi]%list_elem_of_lookup.
    destruct (Forall2_lookup_r _ _ _ _ _ Hall Hi)
      as (line & Hline & Hcut & Hx & Hy).
    apply lookup_take_Some in Hline as [Hline _].
    unfold read_lines in Hline.
    destruct (py_split_decompose NEWLINE content)
      as (fields & last & Hsplit & Hfields & _).
    rewrite Hsplit, drop_last_snoc in Hline.
    rewrite Forall_lookup in Hfields. specialize (Hfields _ _ Hline).
    rewrite Hcut in Hfields.
    apply not_elem_of_app in Hfields as [Hn1 [_ Hn2]%not_elem_of_cons].
    done. }
  destruct (scan_lines_spec pairs) as (-> & -> & _).
  unfold scanned. rewrite take_min_length, take_ge by done.
  rewrite <- !list_fmap_compose.
  split; apply Forall_fmap, Forall_forall; intros p Hp; simpl;
    destruct (Hpairs p Hp) as (Ht1 & Ht2 & Hn1 & Hn2).
  - done.
  - by exists p.2.
Qed.

(** ** The cells on the corpus file *)

Lemma scan_raw_lines_Raise (lines : list str) e :
  scan_raw_lines lines = Raise e →
  e = ValueError
  ∧ ∃ line, line ∈ take num_samples lines ∧ ¬ ∃ p, cut_at_tab line p.
Proof.
  unfold scan_raw_lines. rewrite take_min_length.
  apply scan_raw_fold_Raise.
Qed.

Lemma take_num_samples_nil {A} (l : list A) :
  take num_samples l = [] → l = [].
Proof. destruct l as [|x l]; [done|]. by destruct num_samples eqn:E. Qed.

Lemma notebook_on_file_eq (content : str) :
  notebook_on_file content
  = scan_raw_lines (read_lines content) ≫= cells_after_scan.
Proof. reflexivity. Qed.

(** On a file whose retained lines are cut into [pairs], the cells run as
    they do on [pairs]. *)
Lemma notebook_on_file_pairs (content : str) (pairs : list (str * str)) :
  Forall2 cut_at_tab (take num_samples (read_lines content)) pairs →
  notebook_on_file content = notebook pairs.
Proof.
  intros Hcut. rewrite notebook_on_file_eq.
  rewrite (proj2 (scan_raw_lines_Ok _ (scan_lines pairs)));
    [reflexivity|by exists pairs].
Qed.

(** Every run on a file that succeeds is a run on the pairs cut from its
    retained lines: what is proved of [notebook] holds of it. *)
Lemma notebook_on_file_Ok (content : str) (g : globals) :
  notebook_on_file content = Ok g
  ↔ ∃ pairs, Forall2 cut_at_tab (take num_samples (read_lines content)) pairs
             ∧ notebook pairs = Ok g.
Proof.
  split.
  - rewrite notebook_on_file_eq. intros (sc & Hsc & Hg)%bind_Ok.
    apply (proj1 (scan_raw_lines_Ok _ _)) in Hsc as (pairs & Hcut & ->).
    by exists pairs.
  - intros (pairs & Hcut & Hg). by rewrite (notebook_on_file_pairs _ pairs).
Qed.

(** C2: when the first [num_samples] lines of the file hold one
    tabulation each and there is at least one line, the cells run without
    an exception and, for every such line [i], the example [i] has the
    target text [y] made of the start marker, the text after the
    tabulation and the end marker; at every time step [t] of the arrays,
    the row [t] of [decoder_target_data] is the row [t + 1] of
    [decoder_input_data], the one-hot row of the character [y[t + 1]],
    when [t + 1] is a position of [y], and is an all-zero row
    otherwise. *)
Theorem decoder_target_shifted (content : str) (pairs : list (str * str)) :
  Forall2 cut_at_tab (take num_samples (read_lines content)) pairs →
  pairs ≠ [] →
  ∃ g, notebook_on_file content = Ok g
       ∧ length (targets g) = length pairs
       ∧ ∀ i p y,
           pairs !! i = Some p → y = TAB :: p.2 ++ [NEWLINE] →
           targets g !! i = Some y
           ∧ ∀ t, t < max_decoder_seq_length g →
               (S t < length y →
                  ∃ row c k,
                    row3 (decoder_target_data g) i t = Some row
                    ∧ row3 (decoder_input_data g) i (S t) = Some row
                    ∧ y !! S t = Some c
                    ∧ target_token_index g !! c = Some k
                    ∧ row = one_hot (num_decoder_tokens g) k)
               ∧ (length y ≤ S t →
                    row3 (decoder_target_data g) i t
                    = Some (replicate (num_decoder_tokens g) 0%Q)).
Proof.
  intros Hcut Hne.
  destruct (notebook_Ok pairs Hne) as [g Hg]. exists g.
  split; [by rewrite (notebook_on_file_pairs _ pairs)|].
  assert (Hlen : length pairs ≤ num_samples).
  { rewrite <- (Forall2_length _ _ _ Hcut), length_take. lia. }
  assert (Htargets : ∀ i, targets g !! i
                          = (λ l, TAB :: l.2 ++ [NEWLINE]) <$> pairs !! i).
  { intros i. destruct (notebook_fields _ _ Hg) as (_ & -> & _).
    unfold scanned.
    rewrite !list_lookup_fmap, take_min_length, take_ge by done.
    by destruct (pairs !! i). }
  split.
  { destruct (notebook_fields _ _ Hg) as (_ & -> & _). unfold scanned.
    by rewrite !length_fmap, take_min_length, take_ge by done. }
  intros i p y Hp ->.
  assert (Hy : targets g !! i = Some (TAB :: p.2 ++ [NEWLINE]))
    by by rewrite Htargets, Hp.
  split; [done|]. by apply (decoder_target_rows pairs g Hg i).
Qed.

(** C7, as amended: when the scan of the file leaves no character in the
    source alphabet, the cells end in one of three ways. No line was read,
    and they stop with the [ValueError] of [max] on the empty list of
    lengths, in the cell before the one that allocates the arrays. Or one
    of the first [num_samples] lines does not hold exactly one
    tabulation, and they stop in the scanning loop with the [ValueError]
    of the unpacking. Or lines were read, every source text is empty, the
    cells run without an exception and the encoder input is an array of
    shape [(n, 0, 0)]. *)
Theorem empty_alphabet_outcome (content : str) :
  (∀ sc, scan_raw_lines (read_lines content) = Ok sc →
         scan_input_chars sc = ∅) →
  (read_lines content = []
   ∧ (∃ sc, scan_raw_lines (read_lines content) = Ok sc
            ∧ py_max (length <$> scan_inputs sc) = Raise ValueError)
   ∧ notebook_on_file content = Raise ValueError)
  ∨ ((∃ line, line ∈ take num_samples (read_lines content)
              ∧ ¬ ∃ p, cut_at_tab line p)
     ∧ scan_raw_lines (read_lines content) = Raise ValueError
     ∧ notebook_on_file content = Raise ValueError)
  ∨ (read_lines content ≠ []
     ∧ ∃ g, notebook_on_file content = Ok g
            ∧ (∀ x, x ∈ inputs g → x = [])
            ∧ num_encoder_tokens g = 0
            ∧ max_encoder_seq_length g = 0
            ∧ encoder_input_data g = replicate (length (inputs g)) []).
Proof.
  intros Hempty.
  destruct (scan_raw_lines (read_lines content)) as [sc|e] eqn:Hscan.
  - specialize (Hempty sc eq_refl).
    apply (proj1 (scan_raw_lines_Ok _ _)) in Hscan as Hpairs.
    destruct Hpairs as (pairs & Hcut & ->).
    pose proof (notebook_on_file_pairs _ _ Hcut) as Hfile.
    destruct (empty_alphabet_pairs pairs Hempty)
      as [(-> & Hmax & Hraise)|(Hne & g & Hg & Hout)].
    + left. apply Forall2_nil_inv_r, take_num_samples_nil in Hcut.
      split; [done|]. split; [by eexists|]. by rewrite Hfile.
    + right; right. split.
      { intros Hnil. rewrite Hnil, take_nil in Hcut.
        by apply Forall2_nil_inv_l in Hcut. }
      exists g. split; [by rewrite Hfile|done].
  - right; left. destruct (scan_raw_lines_Raise _ _ Hscan) as [-> Hbad].
    split; [done|]. split; [done|]. by rewrite notebook_on_file_eq, Hscan.
Qed.

(** ** The prepared data *)

(** X5: the cells keep the first [num_samples] lines, in order: example
    [i] has the source text of line [i] and its target text wrapped in
    the start and end markers; the other lines are left out. *)
Theorem examples_retained (lines : list (str * str)) (g : globals) :
  notebook lines = Ok g →
  length (inputs g) = Nat.min num_samples (length lines)
  ∧ length (targets g) = Nat.min num_samples (length lines)
  ∧ ∀ i,
      inputs g !! i
      = (if decide (i < num_samples) then fst <$> lines !! i else None)
      ∧ targets g !! i
        = (if decide (i < num_samples)
           then (λ l, TAB :: l.2 ++ [NEWLINE]) <$> lines !! i else None).
Proof.
  intros Hg.
  destruct (notebook_fields _ _ Hg) as (-> & -> & _).
  unfold scanned. rewrite !length_fmap, length_take.
  split; [lia|]. split; [lia|]. intros i.
  rewrite !list_lookup_fmap, take_min_length, lookup_take.
  by destruct (decide (i < num_samples)), (lines !! i).
Qed.

(** X6: run on the text of a file, the data-preparation cells raise
    exactly when no line is read or one of the first [num_samples] lines
    does not hold exactly one tabulation, and the exception is then a
    [ValueError], of [max] on the empty list or of the unpacking: the index
    lookups and the array assignments of the vectorisation never raise
    [KeyError] or [IndexError]. *)
Theorem data_preparation_raises_iff (content : str) (e : py_error) :
  notebook_on_file content = Raise e
  ↔ e = ValueError
    ∧ (read_lines content = []
       ∨ ∃ line, line ∈ take num_samples (read_lines content)
                 ∧ ¬ ∃ p, cut_at_tab line p).
Proof.
  rewrite notebook_on_file_eq.
  destruct (scan_raw_lines (read_lines content)) as [sc|e'] eqn:Hscan;
    cbn [mbind result_bind].
  - apply (proj1 (scan_raw_lines_Ok _ _)) in Hscan as (pairs & Hcut & ->).
    change (cells_after_scan (scan_lines pairs)) with (notebook pairs).
    split.
    + intros Hraise. destruct (decide (pairs = [])) as [->|Hne].
      * rewrite notebook_empty in Hraise. injection Hraise as <-.
        split; [done|]. left.
        apply Forall2_nil_inv_r in Hcut. by apply take_num_samples_nil.
      * destruct (notebook_Ok pairs Hne) as [g Hg]. congruence.
    + intros [-> [Hnil|(line & Hin & Hbad)]].
      * rewrite Hnil, take_nil in Hcut.
        apply Forall2_nil_inv_l in Hcut as ->. apply notebook_empty.
      * exfalso. apply Hbad.
        apply list_elem_of_lookup in Hin as [i Hi].
        destruct (Forall2_lookup_l _ _ _ _ _ Hcut Hi) as (p & _ & Hp).
        by exists p.
  - destruct (scan_raw_lines_Raise _ _ Hscan) as [-> Hbad]. split.
    + intros [= <-]. split; [done|by right].
    + by intros [-> _].
Qed.

Lemma notebook_target_char lines g c :
  notebook lines = Ok g →
  (∃ y, y ∈ targets g ∧ c ∈ y) ↔ c ∈ target_chars g.
Proof.
  intros Hg.
  destruct (notebook_fields _ _ Hg) as (_ & -> & _ & -> & _).
  destruct (scan_lines_spec lines) as (_ & <- & _ & Hchars).
  rewrite <- Hchars, sorted_Permutation. by rewrite elem_of_elements.
Qed.

Lemma notebook_target_marked lines g i y :
  notebook lines = Ok g →
  targets g !! i = Some y →
  ∃ raw, y = TAB :: raw ++ [NEWLINE].
Proof.
  intros Hg Hy. destruct (notebook_fields _ _ Hg) as (_ & Htg & _).
  apply (scanned_targets_marked lines). rewrite <- Htg.
  by eapply list_elem_of_lookup_2.
Qed.

Lemma notebook_targets_nonempty lines g :
  notebook lines = Ok g → ∃ y, targets g !! 0 = Some y.
Proof.
  intros Hg. pose proof (notebook_nonempty _ _ Hg) as Hne.
  destruct (notebook_fields _ _ Hg) as (_ & -> & _).
  destruct (scanned lines) as [|[x y] rest] eqn:Hsc;
    [by apply (proj1 (scanned_nil lines)) in Hsc|].
  by exists y.
Qed.

(** X7: the two length statistics are maxima that are reached, every
    text fits in them, and on the target side the markers make the
    longest text at least 2 characters long and the alphabet at least 2
    characters large, with both markers in it. *)
Theorem length_statistics (lines : list (str * str)) (g : globals) :
  notebook lines = Ok g →
  (∀ x, x ∈ inputs g → length x ≤ max_encoder_seq_length g)
  ∧ (∃ x, x ∈ inputs g ∧ length x = max_encoder_seq_length g)
  ∧ (∀ y, y ∈ targets g → length y ≤ max_decoder_seq_length g)
  ∧ (∃ y, y ∈ targets g ∧ length y = max_decoder_seq_length g)
  ∧ 2 ≤ max_decoder_seq_length g
  ∧ TAB ∈ target_chars g
  ∧ NEWLINE ∈ target_chars g
  ∧ 2 ≤ num_decoder_tokens g.
Proof.
  intros Hg.
  destruct (notebook_fields _ _ Hg)
    as (_ & _ & _ & _ & _ & HK & HTe & HTd & _).
  destruct (notebook_targets_nonempty _ _ Hg) as [y Hy].
  destruct (notebook_target_marked _ _ _ _ Hg Hy) as [raw ->].
  assert (Hin : TAB :: raw ++ [NEWLINE] ∈ targets g)
    by by eapply list_elem_of_lookup_2.
  assert (Hfit : ∀ y, y ∈ targets g → length y ≤ max_decoder_seq_length g).
  { intros y' Hy'. apply (py_max_Ok _ _ HTd).
    apply list_elem_of_fmap. by exists y'. }
  assert (Htab : TAB ∈ target_chars g).
  { apply (notebook_target_char _ _ _ Hg). eexists. split; [done|by left]. }
  assert (Hnl : NEWLINE ∈ target_chars g).
  { apply (notebook_target_char _ _ _ Hg). eexists. split; [done|].
    right. apply elem_of_app. right. by left. }
  split; [|split; [|split; [done|split; [|split; [|split; [done|split;
    [done|]]]]]]].
  - intros x Hx. apply (py_max_Ok _ _ HTe).
    apply list_elem_of_fmap. by exists x.
  - apply py_max_elem, list_elem_of_fmap in HTe as (x & Hlen & Hx).
    by exists x.
  - apply py_max_elem, list_elem_of_fmap in HTd as (y' & Hlen & Hy').
    by exists y'.
  - specialize (Hfit _ Hin). simpl in Hfit. rewrite length_app in Hfit.
    simpl in Hfit. lia.
  - rewrite HK.
    apply list_elem_of_lookup in Htab as [i Hi].
    apply list_elem_of_lookup in Hnl as [j Hj].
    assert (i ≠ j) by (intros ->; rewrite Hi in Hj; done).
    apply lookup_lt_Some in Hi, Hj. lia.
Qed.

Lemma one_hot_lookup K k j :
  j < K → one_hot K k !! j = Some (if decide (j = k) then 1%Q else 0%Q).
Proof.
  intros Hj. unfold one_hot. rewrite list_lookup_insert, length_replicate.
  destruct (decide (j = k)) as [->|Hne].
  - by rewrite decide_True.
  - rewrite decide_False by (intros [-> _]; done).
    by apply lookup_replicate_2.
Qed.

Lemma length_one_hot K k : length (one_hot K k) = K.
Proof. unfold one_hot. by rewrite length_insert, length_replicate. Qed.

Lemma length_encode_row index K c : length (encode_row index K c) = K.
Proof.
  unfold encode_row. destruct (c ≫= (index !!.)).
  - apply length_one_hot.
  - apply length_replicate.
Qed.

Lemma encode_row_lookup index K c j :
  j < K →
  encode_row index K c !! j
  = Some (if decide (c ≫= (index !!.) = Some j) then 1%Q else 0%Q).
Proof.
  intros Hj. unfold encode_row. destruct (c ≫= (index !!.)) as [k|].
  - rewrite one_hot_lookup by done.
    destruct (decide (j = k)) as [->|Hne].
    + by rewrite decide_True.
    + by rewrite decide_False by congruence.
  - rewrite decide_False by done. by apply lookup_replicate_2.
Qed.

Lemma one_hot_inj K k k' : k < K → one_hot K k' = one_hot K k → k' = k.
Proof.
  intros Hk Heq.
  assert (Hl : one_hot K k' !! k = one_hot K k !! k) by by rewrite Heq.
  rewrite !one_hot_lookup in Hl by done.
  destruct (decide (k = k')) as [->|Hne]; [done|].
  by rewrite decide_True in Hl.
Qed.

Lemma one_hot_not_zero K k : k < K → one_hot K k ≠ replicate K 0%Q.
Proof.
  intros Hk Heq.
  assert (Hl : one_hot K k !! k = replicate K 0%Q !! k) by by rewrite Heq.
  rewrite one_hot_lookup, lookup_replicate_2 in Hl by done.
  by rewrite decide_True in Hl.
Qed.

(** The texts of the corpus can be encoded with its own indices. *)
Lemma notebook_encodable lines g :
  notebook lines = Ok g →
  Forall (encodable (input_token_index g) (max_encoder_seq_length g)
                    (num_encoder_tokens g)) (inputs g)
  ∧ Forall (encodable (target_token_index g) (max_decoder_seq_length g)
                      (num_decoder_tokens g)) (targets g).
Proof.
  intros Hg.
  destruct (notebook_fields _ _ Hg)
    as (Hin & Htg & Hic & Htc & -> & -> & HTe & HTd & -> & -> & _).
  destruct (scan_lines_spec lines) as (Hsi & Hst & _).
  rewrite Hic, Htc. rewrite Hin, <- Hsi in HTe |- *.
  rewrite Htg, <- Hst in HTd |- *.
  by apply scan_encodable.
Qed.

Lemma notebook_lengths lines g :
  notebook lines = Ok g → length (targets g) = length (inputs g).
Proof.
  intros Hg. destruct (notebook_fields _ _ Hg) as (-> & -> & _).
  by rewrite !length_fmap.
Qed.

(** X8: the three arrays have one matrix for each example and one row
    for each time step, and each row of [encoder_input_data] and of
    [decoder_input_data] is as wide as the alphabet; within a text the
    row of a position holds a single 1, at the index of the character at
    that position, and past the end of the text it holds only 0. *)
Theorem input_arrays_one_hot (lines : list (str * str)) (g : globals) :
  notebook lines = Ok g →
  shape (encoder_input_data g)
        (length (inputs g)) (max_encoder_seq_length g)
  ∧ shape (decoder_input_data g)
          (length (inputs g)) (max_decoder_seq_length g)
  ∧ shape (decoder_target_data g)
          (length (inputs g)) (max_decoder_seq_length g)
  ∧ (∀ i x t,
       inputs g !! i = Some x → t < max_encoder_seq_length g →
       ∃ row,
         row3 (encoder_input_data g) i t = Some row
         ∧ length row = num_encoder_tokens g
         ∧ (∀ k, k < num_encoder_tokens g →
                 row !! k
                 = Some (if decide (x !! t ≫= (input_token_index g !!.)
                                    = Some k)
                         then 1%Q else 0%Q))
         ∧ (t < length x
            ↔ ∃ k, k < num_encoder_tokens g
                   ∧ x !! t ≫= (input_token_index g !!.) = Some k))
  ∧ (∀ i y t,
       targets g !! i = Some y → t < max_decoder_seq_length g →
       ∃ row,
         row3 (decoder_input_data g) i t = Some row
         ∧ length row = num_decoder_tokens g
         ∧ (∀ k, k < num_decoder_tokens g →
                 row !! k
                 = Some (if decide (y !! t ≫= (target_token_index g !!.)
                                    = Some k)
                         then 1%Q else 0%Q))
         ∧ (t < length y
            ↔ ∃ k, k < num_decoder_tokens g
                   ∧ y !! t ≫= (target_token_index g !!.) = Some k)).
Proof.
  intros Hg.
  destruct (notebook_encodable _ _ Hg) as [Hei Het].
  pose proof (notebook_lengths _ _ Hg) as Hlen.
  destruct (notebook_fields _ _ Hg)
    as (_ & _ & _ & _ & _ & _ & _ & _ & _ & _ & _ & _ & -> & -> & ->).
  assert (Hrow : ∀ index T K (texts : list str) i s t,
            Forall (encodable index T K) texts →
            texts !! i = Some s → t < T →
            ∃ row,
              row3 (encode_text index T K <$> texts) i t = Some row
              ∧ length row = K
              ∧ (∀ k, k < K →
                   row !! k
                   = Some (if decide (s !! t ≫= (index !!.) = Some k)
                           then 1%Q else 0%Q))
              ∧ (t < length s
                 ↔ ∃ k, k < K ∧ s !! t ≫= (index !!.) = Some k)).
  { intros index T K texts i s t Hall Hs Ht.
    exists (encode_row index K (s !! t)).
    rewrite row3_encode_text, Hs. simpl.
    rewrite decide_True by (split; [by eapply lookup_lt_Some|done]).
    split; [done|]. split; [apply length_encode_row|].
    split; [intros k Hk; by apply encode_row_lookup|].
    rewrite Forall_lookup in Hall. destruct (Hall _ _ Hs) as [_ Hchars].
    split.
    - intros [c Hc]%lookup_lt_is_Some_2.
      destruct (Hchars c) as (k & Hk & HkK);
        [by eapply list_elem_of_lookup_2|].
      exists k. split; [done|]. by rewrite Hc.
    - intros (k & _ & Hk). destruct (s !! t) as [c|] eqn:Hc; [|done].
      by eapply lookup_lt_Some. }
  split; [apply shape_encode_text|].
  split; [rewrite <- Hlen; apply shape_encode_text|].
  split.
  { rewrite <- Hlen, <- (length_fmap (drop 1)). apply shape_encode_text. }
  split.
  - intros i x t Hx Ht. by eapply Hrow.
  - intros i y t Hy Ht. by eapply Hrow.
Qed.

(** X9: for every example, the first row of [decoder_input_data] is the
    one-hot row of the start marker, and the one-hot row of the end
    marker stands at the last position of the target text in
    [decoder_input_data] and one step earlier in
    [decoder_target_data]. *)
Theorem teacher_forcing_markers (lines : list (str * str)) (g : globals) :
  notebook lines = Ok g →
  ∃ k_start k_end,
    target_token_index g !! TAB = Some k_start
    ∧ target_token_index g !! NEWLINE = Some k_end
    ∧ k_start < num_decoder_tokens g
    ∧ k_end < num_decoder_tokens g
    ∧ ∀ i y, targets g !! i = Some y →
        2 ≤ length y
        ∧ row3 (decoder_input_data g) i 0
          = Some (one_hot (num_decoder_tokens g) k_start)
        ∧ row3 (decoder_input_data g) i (length y - 1)
          = Some (one_hot (num_decoder_tokens g) k_end)
        ∧ row3 (decoder_target_data g) i (length y - 2)
          = Some (one_hot (num_decoder_tokens g) k_end).
Proof.
  intros Hg.
  destruct (notebook_encodable _ _ Hg) as [_ Het].
  rewrite Forall_lookup in Het.
  destruct (notebook_targets_nonempty _ _ Hg) as [y0 Hy0].
  destruct (notebook_target_marked _ _ _ _ Hg Hy0) as [raw0 ->].
  destruct (Het _ _ Hy0) as [_ Hchars0].
  destruct (Hchars0 TAB) as (ks & Hks & HksK); [by left|].
  destruct (Hchars0 NEWLINE) as (ke & Hke & HkeK).
  { right. apply elem_of_app. right. by left. }
  exists ks, ke. do 4 (split; [done|]).
  intros i y Hy.
  destruct (notebook_target_marked _ _ _ _ Hg Hy) as [raw ->].
  destruct (Het _ _ Hy) as [Hfit _].
  destruct (notebook_fields _ _ Hg)
    as (_ & _ & _ & _ & _ & _ & _ & _ & _ & _ & _ & _ & _ & -> & ->).
  assert (Hi : i < length (targets g)) by by eapply lookup_lt_Some.
  simpl in Hfit |- *. rewrite length_app in Hfit |- *. simpl in Hfit |- *.
  rewrite !row3_encode_text, length_fmap, list_lookup_fmap, Hy. simpl.
  rewrite !decide_True by lia.
  split; [lia|]. split; [by rewrite (encode_row_hit _ _ _ ks)|].
  replace (length raw + 1 - 0) with (S (length raw)) by lia.
  replace (length raw + 1 - 1) with (length raw) by lia.
  simpl. rewrite lookup_app_r, Nat.sub_diag by done. simpl.
  split; [by rewrite (encode_row_hit _ _ _ ke)|].
  rewrite drop_0, lookup_app_r, Nat.sub_diag by done. simpl.
  by rewrite (encode_row_hit _ _ _ ke).
Qed.

(** X10: when no target text of the corpus holds a tabulation, as is the
    case of the texts cut out of the lines at their tabulation,
    [decoder_target_data] does not include the start marker: none of its
    rows is the one-hot row of the start marker. *)
Theorem target_excludes_start_marker (lines : list (str * str))
    (g : globals) :
  notebook lines = Ok g →
  (∀ l, l ∈ lines → TAB ∉ l.2) →
  ∀ i t k,
    target_token_index g !! TAB = Some k →
    row3 (decoder_target_data g) i t
    ≠ Some (one_hot (num_decoder_tokens g) k).
Proof.
  intros Hg Hraw i t k Hk.
  destruct (notebook_start_marker _ _ Hg) as (k' & Hk' & HkK).
  rewrite Hk in Hk'. injection Hk' as <-.
  destruct (notebook_encodable _ _ Hg) as [_ Het].
  rewrite Forall_lookup in Het.
  destruct (notebook_fields _ _ Hg)
    as (_ & Htg & _ & Htc & _ & _ & _ & _ & _ & Htti & _ & _ & _ & _ & ->).
  rewrite row3_encode_text, length_fmap, list_lookup_fmap.
  case_decide as Hit; [|done]. destruct Hit as [Hi Ht].
  destruct (lookup_lt_is_Some_2 _ _ Hi) as [y Hy]. rewrite Hy. simpl.
  rewrite lookup_drop. simpl. intros [= Hrow].
  unfold encode_row in Hrow.
  destruct (y !! S t) as [c|] eqn:Hc; simpl in Hrow;
    [|exfalso; by apply (one_hot_not_zero _ k HkK)].
  destruct (target_token_index g !! c) as [kc|] eqn:Hkc;
    [|exfalso; by apply (one_hot_not_zero _ k HkK)].
  apply one_hot_inj in Hrow; [|done]. subst kc.
  assert (c = TAB) as ->.
  { rewrite Htti in Hkc, Hk. eapply token_index_inj; [|done..].
    rewrite Htc, sorted_Permutation. apply NoDup_elements. }
  assert (Hy' : y ∈ (scanned lines).*2).
  { rewrite <- Htg. by eapply list_elem_of_lookup_2. }
  unfold scanned in Hy'. rewrite <- list_fmap_compose in Hy'.
  apply list_elem_of_fmap in Hy' as (l & -> & Hl). simpl in Hc.
  apply list_elem_of_lookup_2 in Hc.
  apply elem_of_app in Hc as [Hc|Hc%list_elem_of_singleton]; [|done].
  apply (Hraw l); [|done]. by eapply subseteq_take.
Qed.

(** X11: the reverse dictionaries are the inverses of the indices, on
    both sides: an index is mapped back to a character exactly when that
    character is mapped to the index. *)
Theorem reverse_index_inverts (lines : list (str * str)) (g : globals) :
  notebook lines = Ok g →
  (∀ c i, reverse_input_char_index g !! i = Some c
          ↔ input_token_index g !! c = Some i)
  ∧ (∀ c i, reverse_target_char_index g !! i = Some c
            ↔ target_token_index g !! c = Some i).
Proof.
  intros Hg.
  destruct (notebook_fields _ _ Hg)
    as (_ & _ & Hic & Htc & _ & _ & _ & _ & -> & -> & -> & -> & _).
  assert (NoDup (input_chars g))
    by (rewrite Hic, sorted_Permutation; apply NoDup_elements).
  assert (NoDup (target_chars g))
    by (rewrite Htc, sorted_Permutation; apply NoDup_elements).
  split; intros c i;
    by rewrite reverse_index_lookup, token_index_lookup.
Qed.

(** ** Encoding the input sentence *)

Lemma set3_Ok_inv a i t k v a' :
  set3 a i t k v = Ok a' →
  ∃ row, row3 a i t = Some row ∧ k < length row.
Proof.
  unfold set3, row3.
  destruct (a !! i) as [m|]; simpl; [|done].
  destruct (m !! t) as [row|]; [|done].
  destruct (decide (k < length row)); [|done].
  intros _. by exists row.
Qed.

(** When the loop over the characters of a text ends without an
    exception, each character has an index within the width of the rows
    and the text has not left the [T] rows of the array. *)
Lemma mark_input_chars_Ok_inv index K i (l : str) t0 T (a a' : array3) :
  for_each (enumerate_from t0 l) (mark_input_char index i) a = Ok a' →
  (∀ t, t0 ≤ t < T → row3 a i t = Some (replicate K 0%Q)) →
  (∀ t, T ≤ t → row3 a i t = None) →
  (l = [] ∨ t0 + length l ≤ T)
  ∧ ∀ c, c ∈ l → ∃ k, index !! c = Some k ∧ k < K.
Proof.
  revert t0 a.
  induction l as [|c l IH]; intros t0 a Hrun Hzero Hnone;
    cbn [enumerate_from for_each] in Hrun.
  { split; [by left|]. by intros c ?%elem_of_nil. }
  apply bind_Ok in Hrun as (a1 & Hstep & Hrun).
  unfold mark_input_char in Hstep. simpl in Hstep.
  apply bind_Ok in Hstep as (k & Hk%getitem_Ok & Hset).
  destruct (set3_Ok_inv _ _ _ _ _ _ Hset) as (row & Hrow & HkK).
  assert (Ht0 : t0 < T).
  { destruct (decide (t0 < T)); [done|]. rewrite Hnone in Hrow by lia. done. }
  rewrite Hzero in Hrow by lia. injection Hrow as <-.
  rewrite length_replicate in HkK.
  destruct (set3_Ok a i t0 k 1%Q (replicate K 0%Q))
    as (a1' & Hset' & _ & Hrows1);
    [apply Hzero; lia|by rewrite length_replicate|].
  rewrite Hset in Hset'. injection Hset' as <-.
  destruct (IH (S t0) a1 Hrun) as [Hlen Hchars].
  { intros t Ht. rewrite Hrows1, decide_False by lia. apply Hzero. lia. }
  { intros t Ht. rewrite Hrows1, decide_False by lia. by apply Hnone. }
  split.
  - right. simpl. destruct Hlen as [->|Hlen]; simpl; lia.
  - intros c' [->|Hc']%elem_of_cons; [by exists k|by apply Hchars].
Qed.

(** A text whose characters all have an index, but which is longer than
    the [T] rows of the array, stops the loop with [IndexError]. *)
Lemma mark_input_chars_too_long index K i (l : str) t0 T (a : array3) :
  (∀ c, c ∈ l → ∃ k, index !! c = Some k ∧ k < K) →
  t0 ≤ T → T < t0 + length l →
  (∀ t, t0 ≤ t < T → row3 a i t = Some (replicate K 0%Q)) →
  (∀ t, T ≤ t → row3 a i t = None) →
  for_each (enumerate_from t0 l) (mark_input_char index i) a
  = Raise IndexError.
Proof.
  revert t0 a.
  induction l as [|c l IH]; intros t0 a Hidx Ht0 Hlong Hzero Hnone;
    simpl in Hlong; [lia|].
  cbn [enumerate_from for_each].
  destruct (Hidx c) as (k & Hk & HkK); [by left|].
  rewrite (mark_input_char_indexed _ _ _ _ _ _ Hk).
  destruct (decide (t0 < T)) as [Hlt|Hge].
  - destruct (set3_Ok a i t0 k 1%Q (replicate K 0%Q))
      as (a1 & -> & _ & Hrows1);
      [apply Hzero; lia|by rewrite length_replicate|].
    cbn [mbind result_bind]. apply IH; [|lia|lia|..].
    + intros c' Hc'. apply Hidx. by right.
    + intros t Ht. rewrite Hrows1, decide_False by lia. apply Hzero. lia.
    + intros t Ht. rewrite Hrows1, decide_False by lia. by apply Hnone.
  - rewrite set3_Raise; [done|].
    intros row. by rewrite Hnone by lia.
Qed.

Section Inference.
Context {vec : Type}.
Variable encoder_model : array3 → vec * vec.
Variable decoder_model : array3 → vec * vec → array3 * (vec * vec).
Variable lines : list (str * str).
Variable g : globals.
Hypothesis Hg : notebook lines = Ok g.

Abbreviation loop_body := (loop_body decoder_model g).
Abbreviation loop_run := (loop_run decoder_model g).
Abbreviation initial_state := (initial_state encoder_model g).
Abbreviation decode_sentence :=
  (decode_sentence encoder_model decoder_model g).
Abbreviation translate_all :=
  (translate_all encoder_model decoder_model g).
Abbreviation sentence_encodable :=
  (encodable (input_token_index g) (max_encoder_seq_length g)
             (num_encoder_tokens g)).

(** The array of an encodable sentence, in closed form. *)
Lemma input_seq_of_closed (s : str) :
  sentence_encodable s →
  input_seq_of g s
  = Ok [encode_text (input_token_index g) (max_encoder_seq_length g)
                    (num_encoder_tokens g) s].
Proof.
  intros [Hlen Hchars]. unfold input_seq_of, enumerate.
  destruct (mark_input_chars (input_token_index g) (num_encoder_tokens g)
              0 s 0
              (np_zeros 1 (max_encoder_seq_length g) (num_encoder_tokens g))
              Hchars) as (a & -> & Hshape & Hrows).
  { intros t Ht. rewrite row3_zeros. by rewrite decide_True by lia. }
  f_equal.
  change [encode_text ?index ?T ?K s] with (encode_text index T K <$> [s]).
  apply (array3_ext _ _ 1 (max_encoder_seq_length g)).
  - apply Hshape, shape_zeros.
  - apply (shape_encode_text _ _ _ [s]).
  - intros i t.
    rewrite Hrows, row3_zeros, Nat.sub_0_r, row3_encode_text. simpl.
    destruct (decide (i = 0 ∧ 0 ≤ t < length s)) as [[-> Ht]|Hn].
    + by rewrite decide_True by lia.
    + destruct (decide (i < 1 ∧ t < max_encoder_seq_length g))
        as [[Hi Ht]|]; [|done].
      destruct i as [|i]; [|lia]. simpl.
      by rewrite lookup_ge_None_2 by lia.
Qed.

Lemma input_seq_of_Ok_encodable (s : str) a :
  input_seq_of g s = Ok a → sentence_encodable s.
Proof.
  intros Hrun. unfold input_seq_of, enumerate in Hrun.
  destruct (mark_input_chars_Ok_inv _ (num_encoder_tokens g) _ _ _
              (max_encoder_seq_length g) _ _ Hrun) as [Hlen Hchars].
  - intros t Ht. rewrite row3_zeros. by rewrite decide_True by lia.
  - intros t Ht. rewrite row3_zeros. by rewrite decide_False by lia.
  - split; [|done]. destruct Hlen as [->|Hlen]; simpl in *; lia.
Qed.

Lemma decode_sentence_Ok_encodable (s out : str) :
  decode_sentence s = Ok out → sentence_encodable s.
Proof.
  intros Hout. unfold decode_sentence in Hout.
  apply bind_Ok in Hout as (st0 & Hinit & _).
  unfold initial_state in Hinit.
  apply bind_Ok in Hinit as (a & Ha & _).
  by eapply input_seq_of_Ok_encodable.
Qed.

(** The characters with an entry in the source index are those of the
    source alphabet. *)
Lemma input_chars_indexed (c : ascii) :
  c ∈ input_chars g
  ↔ ∃ k, input_token_index g !! c = Some k ∧ k < num_encoder_tokens g.
Proof.
  destruct (notebook_fields _ _ Hg)
    as (_ & _ & Hic & _ & -> & _ & _ & _ & -> & _).
  assert (Hnd : NoDup (input_chars g))
    by (rewrite Hic, sorted_Permutation; apply NoDup_elements).
  rewrite list_elem_of_lookup. split.
  - intros [k Hk]. exists k.
    split; [by apply token_index_lookup|by eapply lookup_lt_Some].
  - intros (k & Hk & _). exists k. by apply token_index_lookup in Hk.
Qed.

Lemma sentence_encodable_chars (s : str) :
  sentence_encodable s
  ↔ length s ≤ max_encoder_seq_length g ∧ ∀ c, c ∈ s → c ∈ input_chars g.
Proof.
  unfold encodable. split; intros [Hlen Hchars]; (split; [done|]);
    intros c Hc; by apply input_chars_indexed, Hchars.
Qed.

(** X12: the sentence is encoded at inference as it was for training:
    for the source text of example [i], the array given to the encoder
    holds the single matrix [encoder_input_data[i]]. *)
Theorem inference_encoding_matches_training (i : nat) (x : str) :
  inputs g !! i = Some x →
  ∃ m, encoder_input_data g !! i = Some m
       ∧ input_seq_of g x = Ok [m].
Proof.
  intros Hx.
  destruct (notebook_encodable _ _ Hg) as [Hei _].
  rewrite Forall_lookup in Hei.
  rewrite (input_seq_of_closed x) by by eapply Hei.
  destruct (notebook_fields _ _ Hg)
    as (_ & _ & _ & _ & _ & _ & _ & _ & _ & _ & _ & _ & -> & _).
  eexists. split; [|done]. by rewrite list_lookup_fmap, Hx.
Qed.

(** X13: with a decoder model of the right output shape,
    [decode_sentence] returns a translation exactly for the sentences
    that have at most [max_encoder_seq_length] characters, all of them
    in the source alphabet; for any other sentence it raises. *)
Theorem decode_sentence_returns_iff (input_sentence : str) :
  well_shaped decoder_model (num_decoder_tokens g) →
  (∃ out, decode_sentence input_sentence = Ok out)
  ↔ length input_sentence ≤ max_encoder_seq_length g
    ∧ ∀ c, c ∈ input_sentence → c ∈ input_chars g.
Proof.
  intros Hshape. rewrite <- sentence_encodable_chars. split.
  - intros [out Hout]. by eapply decode_sentence_Ok_encodable.
  - by apply (decode_sentence_returns encoder_model decoder_model lines g Hg).
Qed.

(** X14: a sentence of known characters that is longer than
    [max_encoder_seq_length] is not truncated: the call raises
    [IndexError] on the first character past the array. *)
Theorem long_sentence_raises (input_sentence : str) :
  (∀ c, c ∈ input_sentence → c ∈ input_chars g) →
  max_encoder_seq_length g < length input_sentence →
  decode_sentence input_sentence = Raise IndexError.
Proof.
  intros Hin Hlong.
  unfold decode_sentence, initial_state, input_seq_of, enumerate.
  rewrite (mark_input_chars_too_long (input_token_index g)
             (num_encoder_tokens g) 0 input_sentence 0
             (max_encoder_seq_length g)); [done|..|lia|lia| |].
  - intros c Hc. by apply input_chars_indexed, Hin.
  - intros t Ht. rewrite row3_zeros. by rewrite decide_True by lia.
  - intros t Ht. rewrite row3_zeros. by rewrite decide_False by lia.
Qed.

(** The characters of the decoded text come out of the reverse index. *)
Lemma loop_run_chars (st st' : loop_state vec) n :
  loop_run st n (Ok st') →
  ∀ c, c ∈ decoded_sentence st' →
       c ∈ decoded_sentence st
       ∨ ∃ i, reverse_target_char_index g !! i = Some c.
Proof.
  intros Hrun. remember (Ok st') as r eqn:Hr. revert st' Hr.
  induction Hrun as [st Hs|st e Hs Hb|st st1 n r Hs Hb Hrun IH];
    intros st' Hr c Hc; [|done|].
  - injection Hr as <-. by left.
  - destruct (IH _ Hr c Hc) as [Hc1|Hrev]; [|by right].
    destruct (loop_body_Ok _ _ _ _ Hb)
      as (row & i & c1 & _ & _ & Hrev & _ & Hd & _).
    rewrite Hd in Hc1.
    apply elem_of_app in Hc1 as [Hc1| ->%list_elem_of_singleton];
      [by left|]. right. by exists i.
Qed.

Lemma notebook_reverse_forward (i : nat) (c : ascii) :
  reverse_target_char_index g !! i = Some c →
  target_token_index g !! c = Some i ∧ c ∈ target_chars g.
Proof.
  destruct (notebook_fields _ _ Hg)
    as (_ & _ & _ & Htc & _ & _ & _ & _ & _ & -> & _ & -> & _).
  assert (Hnd : NoDup (target_chars g))
    by (rewrite Htc, sorted_Permutation; apply NoDup_elements).
  rewrite reverse_index_lookup, token_index_lookup by done.
  intros Hi. split; [done|]. by eapply list_elem_of_lookup_2.
Qed.

(** X15: a translation is written in the target alphabet: each of its
    characters occurs in a target text of the corpus, markers
    included. *)
Theorem translation_in_target_alphabet (input_sentence out : str) :
  decode_sentence input_sentence = Ok out →
  ∀ c, c ∈ out →
       c ∈ target_chars g ∧ ∃ y, y ∈ targets g ∧ c ∈ y.
Proof.
  intros Hout c Hc.
  destruct (decode_run_total encoder_model decoder_model g input_sentence)
    as [n Hn].
  fold decode_sentence in Hn. rewrite Hout in Hn.
  inversion Hn as [|st0 n' st' H0 Hrun|]; subst.
  destruct (initial_state_Ok _ _ _ _ H0) as [Hd _].
  destruct (loop_run_chars _ _ _ Hrun c Hc) as [Hc0|[i Hi]].
  { rewrite Hd in Hc0. by apply elem_of_nil in Hc0. }
  destruct (notebook_reverse_forward _ _ Hi) as [_ Hin].
  split; [done|]. by apply (notebook_target_char _ _ _ Hg).
Qed.

(** X16: the decoder is fed as in training. The loop is entered with the
    states returned by the encoder for the encoded sentence and with the
    one-hot row of the start marker; each execution of the body hands
    over the states returned by the decoder and the one-hot row, in the
    target index, of the character it has just appended. *)
Theorem decoder_feedback :
  (∀ input_sentence st0,
     initial_state input_sentence = Ok st0 →
     ∃ input_seq k,
       input_seq_of g input_sentence = Ok input_seq
       ∧ states_value st0 = encoder_model input_seq
       ∧ target_token_index g !! TAB = Some k
       ∧ target_seq st0 = [[one_hot (num_decoder_tokens g) k]])
  ∧ (∀ st st',
       loop_body st = Ok st' →
       ∃ c k,
         decoded_sentence st' = decoded_sentence st ++ [c]
         ∧ target_token_index g !! c = Some k
         ∧ target_seq st' = [[one_hot (num_decoder_tokens g) k]]
         ∧ states_value st'
           = (decoder_model (target_seq st) (states_value st)).2).
Proof.
  split.
  - intros s st0 Hinit. unfold initial_state in Hinit.
    apply bind_Ok in Hinit as (a & Ha & Hinit). simpl in Hinit.
    apply bind_Ok in Hinit as (k & Hk%getitem_Ok & Hinit).
    apply bind_Ok in Hinit as (ts & Hts & Hinit).
    injection Hinit as <-. exists a, k. simpl.
    do 3 (split; [done|]).
    revert Hts. unfold set3, np_zeros. simpl. rewrite length_replicate.
    destruct (decide (k < num_decoder_tokens g)); [|done].
    by intros [= <-].
  - intros st st' Hb.
    destruct (loop_body_Ok _ _ _ _ Hb)
      as (row & i & c & _ & _ & Hrev & _ & Hd & _ & Ht & Hs).
    destruct (notebook_reverse_forward _ _ Hrev) as [Hfwd _].
    by exists c, i.
Qed.

(** X17: with a decoder model of the right output shape, the loop over
    the sentences to translate ends without an exception exactly when
    every sentence has at most [max_encoder_seq_length] characters, all
    in the source alphabet. *)
Theorem translate_all_completes (sentences : list str) (stdout : str) :
  well_shaped decoder_model (num_decoder_tokens g) →
  (translate_all sentences stdout).2 = None
  ↔ Forall (λ s, length s ≤ max_encoder_seq_length g
                 ∧ ∀ c, c ∈ s → c ∈ input_chars g) sentences.
Proof.
  intros Hshape. revert stdout.
  induction sentences as [|s rest IH]; intros stdout; simpl.
  { split; [by constructor|done]. }
  rewrite Forall_cons, <- sentence_encodable_chars.
  destruct (decode_sentence s) as [out|e] eqn:Hs.
  - rewrite IH. split; [|by intros [_ ?]].
    intros Hrest. split; [|done]. by eapply decode_sentence_Ok_encodable.
  - simpl. split; [done|]. intros [Hs' _].
    destruct (decode_sentence_returns encoder_model decoder_model lines g
                Hg s Hshape Hs') as [out Hout].
    fold decode_sentence in Hout. by rewrite Hs in Hout.
Qed.

End Inference.

(** ** The translation cell *)

Section TranslatingFacts.
Context {vec : Type}.
Variable encoder_model : array3 → vec * vec.
Variable decoder_model : array3 → vec * vec → array3 * (vec * vec).
Variable g : globals.

Abbreviation decode_sentence :=
  (decode_sentence encoder_model decoder_model g).
Abbreviation translate_all :=
  (translate_all encoder_model decoder_model g).

(** X18: the loop over the sentences prints, after what was printed
    before, one entry [sentence : translation] for each sentence up to the
    first one whose translation raises, in order; it ends normally when
    there is no such sentence, and otherwise with the exception of that
    sentence, for which nothing is printed. *)
Theorem translate_all_spec (sentences : list str) (stdout : str) :
  ∃ translated translations,
    Forall2 (λ s t, decode_sentence s = Ok t) translated translations
    ∧ (translate_all sentences stdout).1
      = stdout ++ concat (zip_with print_translation translated translations)
    ∧ match (translate_all sentences stdout).2 with
      | None => sentences = translated
      | Some e =>
          ∃ s rest, sentences = translated ++ s :: rest
                    ∧ decode_sentence s = Raise e
      end.
Proof.
  revert stdout.
  induction sentences as [|s rest IH]; intros stdout; simpl.
  { exists [], []. split; [constructor|]. simpl. by rewrite app_nil_r. }
  destruct (decode_sentence s) as [out|e] eqn:Hs.
  - destruct (IH (stdout ++ print_translation s out))
      as (translated & translations & Hall & Hprinted & Hend).
    exists (s :: translated), (out :: translations).
    split; [by constructor|].
    split; [by rewrite Hprinted, <- app_assoc|].
    destruct (translate_all rest _).2 as [e|].
    + destruct Hend as (s' & rest' & -> & Hs'). by exists s', rest'.
    + by rewrite Hend.
  - exists [], []. split; [constructor|]. simpl.
    split; [by rewrite app_nil_r|]. by exists s, rest.
Qed.

End TranslatingFacts.

(** ** The properties on the small corpus *)

Lemma scanned_texts_well_marked_witness :
  scan_raw_lines (read_lines demo_content)
  = Ok (scan_lines demo_content_pairs)
  ∧ Forall (λ x_seq, (TAB ∉ x_seq) ∧ NEWLINE ∉ x_seq)
           (scan_inputs (scan_lines demo_content_pairs))
  ∧ Forall (λ y_seq, ∃ raw, y_seq = TAB :: raw ++ [NEWLINE]
                            ∧ (TAB ∉ raw) ∧ NEWLINE ∉ raw)
           (scan_targets (scan_lines demo_content_pairs)).
Proof.
  split; [vm_compute; reflexivity|].
  apply (scanned_texts_well_marked demo_content).
  vm_compute; reflexivity.
Defined.

Lemma examples_retained_witness :
  notebook demo_lines = Ok demo_globals
  ∧ (
  length (inputs demo_globals) = Nat.min num_samples (length demo_lines)
  ∧ length (targets demo_globals) = Nat.min num_samples (length demo_lines)
  ∧ ∀ i,
      inputs demo_globals !! i
      = (if decide (i < num_samples) then fst <$> demo_lines !! i else None)
      ∧ targets demo_globals !! i
        = (if decide (i < num_samples)
           then (λ l, TAB :: l.2 ++ [NEWLINE]) <$> demo_lines !! i else None)).
Proof.
  split; [exact demo_globals_Ok|].
  exact (examples_retained demo_lines demo_globals demo_globals_Ok).
Defined.

Lemma length_statistics_witness :
  notebook demo_lines = Ok demo_globals
  ∧ (
  (∀ x, x ∈ inputs demo_globals → length x ≤ max_encoder_seq_length demo_globals)
  ∧ (∃ x, x ∈ inputs demo_globals ∧ length x = max_encoder_seq_length demo_globals)
  ∧ (∀ y, y ∈ targets demo_globals → length y ≤ max_decoder_seq_length demo_globals)
  ∧ (∃ y, y ∈ targets demo_globals ∧ length y = max_decoder_seq_length demo_globals)
  ∧ 2 ≤ max_decoder_seq_length demo_globals
  ∧ TAB ∈ target_chars demo_globals
  ∧ NEWLINE ∈ target_chars demo_globals
  ∧ 2 ≤ num_decoder_tokens demo_globals).
Proof.
  split; [exact demo_globals_Ok|].
  exact (length_statistics demo_lines demo_globals demo_globals_Ok).
Defined.

Lemma input_arrays_one_hot_witness :
  notebook demo_lines = Ok demo_globals
  ∧ (
  shape (encoder_input_data demo_globals)
        (length (inputs demo_globals)) (max_encoder_seq_length demo_globals)
  ∧ shape (decoder_input_data demo_globals)
          (length (inputs demo_globals)) (max_decoder_seq_length demo_globals)
  ∧ shape (decoder_target_data demo_globals)
          (length (inputs demo_globals)) (max_decoder_seq_length demo_globals)
  ∧ (∀ i x t,
       inputs demo_globals !! i = Some x → t < max_encoder_seq_length demo_globals →
       ∃ row,
         row3 (encoder_input_data demo_globals) i t = Some row
         ∧ length row = num_encoder_tokens demo_globals
         ∧ (∀ k, k < num_encoder_tokens demo_globals →
                 row !! k
                 = Some (if decide (x !! t ≫= (input_token_index demo_globals !!.)
                                    = Some k)
                         then 1%Q else 0%Q))
         ∧ (t < length x
            ↔ ∃ k, k < num_encoder_tokens demo_globals
                   ∧ x !! t ≫= (input_token_index demo_globals !!.) = Some k))
  ∧ (∀ i y t,
       targets demo_globals !! i = Some y → t < max_decoder_seq_length demo_globals →
       ∃ row,
         row3 (decoder_input_data demo_globals) i t = Some row
         ∧ length row = num_decoder_tokens demo_globals
         ∧ (∀ k, k < num_decoder_tokens demo_globals →
                 row !! k
                 = Some (if decide (y !! t ≫= (target_token_index demo_globals !!.)
                                    = Some k)
                         then 1%Q else 0%Q))
         ∧ (t < length y
            ↔ ∃ k, k < num_decoder_tokens demo_globals
                   ∧ y !! t ≫= (target_token_index demo_globals !!.) = Some k))).
Proof.
  split; [exact demo_globals_Ok|].
  exact (input_arrays_one_hot demo_lines demo_globals demo_globals_Ok).
Defined.

Lemma teacher_forcing_markers_witness :
  notebook demo_lines = Ok demo_globals
  ∧ (
  ∃ k_start k_end,
    target_token_index demo_globals !! TAB = Some k_start
    ∧ target_token_index demo_globals !! NEWLINE = Some k_end
    ∧ k_start < num_decoder_tokens demo_globals
    ∧ k_end < num_decoder_tokens demo_globals
    ∧ ∀ i y, targets demo_globals !! i = Some y →
        2 ≤ length y
        ∧ row3 (decoder_input_data demo_globals) i 0
          = Some (one_hot (num_decoder_tokens demo_globals) k_start)
        ∧ row3 (decoder_input_data demo_globals) i (length y - 1)
          = Some (one_hot (num_decoder_tokens demo_globals) k_end)
        ∧ row3 (decoder_target_data demo_globals) i (length y - 2)
          = Some (one_hot (num_decoder_tokens demo_globals) k_end)).
Proof.
  split; [exact demo_globals_Ok|].
  exact (teacher_forcing_markers demo_lines demo_globals demo_globals_Ok).
Defined.

Lemma reverse_index_inverts_witness :
  notebook demo_lines = Ok demo_globals
  ∧ (
  (∀ c i, reverse_input_char_index demo_globals !! i = Some c
          ↔ input_token_index demo_globals !! c = Some i)
  ∧ (∀ c i, reverse_target_char_index demo_globals !! i = Some c
            ↔ target_token_index demo_globals !! c = Some i)).
Proof.
  split; [exact demo_globals_Ok|].
  exact (reverse_index_inverts demo_lines demo_globals demo_globals_Ok).
Defined.

Lemma demo_targets_no_tab : ∀ l, l ∈ demo_lines → TAB ∉ l.2.
Proof.
  intros l ->%list_elem_of_singleton. simpl.
  apply (bool_decide_unpack _). vm_compute. exact I.
Qed.

Lemma target_excludes_start_marker_witness :
  notebook demo_lines = Ok demo_globals
  ∧ (∀ l, l ∈ demo_lines → TAB ∉ l.2)
  ∧ ∀ i t k,
      target_token_index demo_globals !! TAB = Some k →
      row3 (decoder_target_data demo_globals) i t
      ≠ Some (one_hot (num_decoder_tokens demo_globals) k).
Proof.
  split; [exact demo_globals_Ok|]. split; [exact demo_targets_no_tab|].
  exact (target_excludes_start_marker demo_lines demo_globals
           demo_globals_Ok demo_targets_no_tab).
Defined.

Lemma inference_encoding_matches_training_witness :
  notebook demo_lines = Ok demo_globals
  ∧ inputs demo_globals !! 0 = Some sentence_b
  ∧ ∃ m, encoder_input_data demo_globals !! 0 = Some m
         ∧ input_seq_of demo_globals sentence_b = Ok [m].
Proof.
  split; [exact demo_globals_Ok|]. split; [vm_compute; reflexivity|].
  apply (inference_encoding_matches_training demo_lines demo_globals
           demo_globals_Ok 0 sentence_b).
  vm_compute; reflexivity.
Defined.

Lemma decode_sentence_returns_iff_witness :
  notebook demo_lines = Ok demo_globals
  ∧ well_shaped five_a_decoder (num_decoder_tokens demo_globals)
  ∧ ((∃ out, decode_sentence demo_encoder five_a_decoder demo_globals
               sentence_b = Ok out)
     ↔ length sentence_b ≤ max_encoder_seq_length demo_globals
       ∧ ∀ c, c ∈ sentence_b → c ∈ input_chars demo_globals).
Proof.
  split; [exact demo_globals_Ok|].
  split; [apply scripted_decoder_well_shaped|].
  apply (decode_sentence_returns_iff demo_encoder five_a_decoder
           demo_lines demo_globals demo_globals_Ok sentence_b).
  apply scripted_decoder_well_shaped.
Defined.

Lemma demo_known_chars :
  ∀ c, c ∈ text "bb" → c ∈ input_chars demo_globals.
Proof.
  intros c Hc.
  assert (c = "b"%char) as ->.
  { change (text "bb") with ["b"%char; "b"%char] in Hc.
    by apply elem_of_cons in Hc
      as [->|[->|?%elem_of_nil]%elem_of_cons]. }
  apply (bool_decide_unpack _). vm_compute. exact I.
Qed.

Lemma long_sentence_raises_witness :
  notebook demo_lines = Ok demo_globals
  ∧ (∀ c, c ∈ text "bb" → c ∈ input_chars demo_globals)
  ∧ max_encoder_seq_length demo_globals < length (text "bb")
  ∧ decode_sentence demo_encoder five_a_decoder demo_globals (text "bb")
    = Raise IndexError.
Proof.
  split; [exact demo_globals_Ok|]. split; [exact demo_known_chars|].
  split; [vm_compute; lia|].
  apply (long_sentence_raises demo_encoder five_a_decoder
           demo_lines demo_globals demo_globals_Ok (text "bb")).
  - exact demo_known_chars.
  - vm_compute; lia.
Defined.

Lemma translation_in_target_alphabet_witness :
  notebook demo_lines = Ok demo_globals
  ∧ decode_sentence demo_encoder five_a_decoder demo_globals sentence_b
    = Ok (text "aaaaa" ++ [NEWLINE])
  ∧ ∀ c, c ∈ text "aaaaa" ++ [NEWLINE] →
         c ∈ target_chars demo_globals
         ∧ ∃ y, y ∈ targets demo_globals ∧ c ∈ y.
Proof.
  split; [exact demo_globals_Ok|]. split; [vm_compute; reflexivity|].
  apply (translation_in_target_alphabet demo_encoder five_a_decoder
           demo_lines demo_globals demo_globals_Ok sentence_b).
  vm_compute; reflexivity.
Defined.

Lemma decoder_feedback_witness :
  notebook demo_lines = Ok demo_globals
  ∧ (∀ input_sentence st0,
       initial_state demo_encoder demo_globals input_sentence = Ok st0 →
       ∃ input_seq k,
         input_seq_of demo_globals input_sentence = Ok input_seq
         ∧ states_value st0 = demo_encoder input_seq
         ∧ target_token_index demo_globals !! TAB = Some k
         ∧ target_seq st0
           = [[one_hot (num_decoder_tokens demo_globals) k]])
  ∧ (∀ st st',
       loop_body five_a_decoder demo_globals st = Ok st' →
       ∃ c k,
         decoded_sentence st' = decoded_sentence st ++ [c]
         ∧ target_token_index demo_globals !! c = Some k
         ∧ target_seq st'
           = [[one_hot (num_decoder_tokens demo_globals) k]]
         ∧ states_value st'
           = (five_a_decoder (target_seq st) (states_value st)).2).
Proof.
  split; [exact demo_globals_Ok|].
  exact (decoder_feedback demo_encoder five_a_decoder demo_lines
           demo_globals demo_globals_Ok).
Defined.

Lemma translate_all_completes_witness :
  notebook demo_lines = Ok demo_globals
  ∧ well_shaped five_a_decoder (num_decoder_tokens demo_globals)
  ∧ ((translate_all demo_encoder five_a_decoder demo_globals
        [sentence_b; text "c"] []).2 = None
     ↔ Forall (λ s, length s ≤ max_encoder_seq_length demo_globals
                    ∧ ∀ c, c ∈ s → c ∈ input_chars demo_globals)
              [sentence_b; text "c"]).
Proof.
  split; [exact demo_globals_Ok|].
  split; [apply scripted_decoder_well_shaped|].
  apply (translate_all_completes demo_encoder five_a_decoder
           demo_lines demo_globals demo_globals_Ok).
  apply scripted_decoder_well_shaped.
Defined.

(** The cell on three sentences, the second with an unknown character:
    one entry is printed, the end marker of the translation followed by
    the newline of [print], and the loop stops with [KeyError]. *)
Lemma translate_all_stops :
  translate_all demo_encoder five_a_decoder demo_globals
    [sentence_b; text "c"; sentence_b] []
  = (text "b : aaaaa" ++ [NEWLINE; NEWLINE], Some KeyError).
Proof. vm_compute. reflexivity. Qed.

(** The two lines of the small file, and what a missing last newline
    does to the last line. *)
Lemma read_lines_demo :
  read_lines demo_content
  = [text "b" ++ TAB :: text "abab"; text "ab" ++ TAB :: text "b"]
  ∧ read_lines (text "b" ++ TAB :: text "abab") = [].
Proof. split; vm_compute; reflexivity. Qed.

(** ** The cells on the small files *)

Lemma demo_content_cut :
  Forall2 cut_at_tab (take num_samples (read_lines demo_content))
          demo_content_pairs.
Proof.
  assert (Hlines : take num_samples (read_lines demo_content)
                   = [text "b" ++ TAB :: text "abab";
                      text "ab" ++ TAB :: text "b"])
    by (vm_compute; reflexivity).
  rewrite Hlines.
  constructor; [apply (proj1 (split_line_Ok _ _)); vm_compute; reflexivity|].
  constructor; [apply (proj1 (split_line_Ok _ _)); vm_compute; reflexivity|].
  constructor.
Qed.

Lemma demo_file_globals_Ok :
  notebook_on_file demo_content = Ok demo_file_globals.
Proof. vm_compute. reflexivity. Qed.

(** The file ["b\tabab\nab\tb\n"]: the target alphabet is tabulation,
    newline, ['a'], ['b'], of indices 0 to 3, and the arrays have 6 time
    steps. Example 0 has the target text ["\tabab\n"]: row 0 of its target
    is row 1 of its input, the row of ['a']; row 4 of its target is row 5
    of its input, the row of the end marker; row 5 of its target is zero.
    Example 1 has the target text ["\tb\n"], of 3 characters: row 1 of
    its target is row 2 of its input, the row of the end marker, and row 2
    of its target is zero. *)
Lemma decoder_target_shifted_witness :
  Forall2 cut_at_tab (take num_samples (read_lines demo_content))
          demo_content_pairs
  ∧ demo_content_pairs ≠ []
  ∧ ∃ g, notebook_on_file demo_content = Ok g
         ∧ max_decoder_seq_length g = 6
         ∧ targets g !! 0 = Some (TAB :: text "abab" ++ [NEWLINE])
         ∧ targets g !! 1 = Some (TAB :: text "b" ++ [NEWLINE])
         ∧ row3 (decoder_target_data g) 0 0 = Some (one_hot 4 2)
         ∧ row3 (decoder_input_data g) 0 1 = Some (one_hot 4 2)
         ∧ row3 (decoder_target_data g) 0 4 = Some (one_hot 4 1)
         ∧ row3 (decoder_input_data g) 0 5 = Some (one_hot 4 1)
         ∧ row3 (decoder_target_data g) 0 5 = Some (replicate 4 0%Q)
         ∧ row3 (decoder_target_data g) 1 1 = Some (one_hot 4 1)
         ∧ row3 (decoder_input_data g) 1 2 = Some (one_hot 4 1)
         ∧ row3 (decoder_target_data g) 1 2 = Some (replicate 4 0%Q).
Proof.
  split; [exact demo_content_cut|]. split; [done|].
  destruct (decoder_target_shifted demo_content demo_content_pairs
              demo_content_cut ltac:(done)) as (g & Hg & _ & Hrows).
  assert (g = demo_file_globals) as ->.
  { apply Ok_inj. rewrite <- Hg. exact demo_file_globals_Ok. }
  assert (HK : num_decoder_tokens demo_file_globals = 4)
    by (vm_compute; reflexivity).
  assert (HT : max_decoder_seq_length demo_file_globals = 6)
    by (vm_compute; reflexivity).
  rewrite HK, HT in Hrows.
  exists demo_file_globals. split; [exact Hg|]. split; [exact HT|].
  destruct (Hrows 0 _ _ eq_refl eq_refl) as [Hy0 Ht0].
  destruct (Hrows 1 _ _ eq_refl eq_refl) as [Hy1 Ht1].
  split; [exact Hy0|]. split; [exact Hy1|].
  destruct (Ht0 0 ltac:(lia)) as [Hin00 _].
  destruct (Hin00 ltac:(vm_compute; lia))
    as (row00 & c00 & k00 & Htgt00 & Hinp00 & Hc00 & Hk00 & ->).
  vm_compute in Hc00. injection Hc00 as <-.
  vm_compute in Hk00. injection Hk00 as <-.
  split; [exact Htgt00|]. split; [exact Hinp00|].
  destruct (Ht0 4 ltac:(lia)) as [Hin04 _].
  destruct (Hin04 ltac:(vm_compute; lia))
    as (row04 & c04 & k04 & Htgt04 & Hinp04 & Hc04 & Hk04 & ->).
  vm_compute in Hc04. injection Hc04 as <-.
  vm_compute in Hk04. injection Hk04 as <-.
  split; [exact Htgt04|]. split; [exact Hinp04|].
  destruct (Ht0 5 ltac:(lia)) as [_ Hzero05].
  split; [exact (Hzero05 ltac:(vm_compute; lia))|].
  destruct (Ht1 1 ltac:(lia)) as [Hin11 _].
  destruct (Hin11 ltac:(vm_compute; lia))
    as (row11 & c11 & k11 & Htgt11 & Hinp11 & Hc11 & Hk11 & ->).
  vm_compute in Hc11. injection Hc11 as <-.
  vm_compute in Hk11. injection Hk11 as <-.
  split; [exact Htgt11|]. split; [exact Hinp11|].
  destruct (Ht1 2 ltac:(lia)) as [_ Hzero12].
  exact (Hzero12 ltac:(vm_compute; lia)).
Defined.

Lemma empty_source_scan :
  scan_raw_lines (read_lines empty_source_content)
  = Ok (scan_lines empty_source_lines).
Proof. vm_compute. reflexivity. Qed.

(** The file ["\ta\n"]: a line was read, the scan leaves no character in
    the source alphabet, and the cells build an encoder input of one
    matrix without rows. *)
Lemma empty_alphabet_outcome_witness :
  (∀ sc, scan_raw_lines (read_lines empty_source_content) = Ok sc →
         scan_input_chars sc = ∅)
  ∧ read_lines empty_source_content ≠ []
  ∧ ∃ g, notebook_on_file empty_source_content = Ok g
         ∧ (∀ x, x ∈ inputs g → x = [])
         ∧ num_encoder_tokens g = 0
         ∧ max_encoder_seq_length g = 0
         ∧ encoder_input_data g = replicate (length (inputs g)) [].
Proof.
  assert (Hempty : ∀ sc,
            scan_raw_lines (read_lines empty_source_content) = Ok sc →
            scan_input_chars sc = ∅).
  { intros sc Hsc. rewrite empty_source_scan in Hsc.
    apply Ok_inj in Hsc as <-. vm_compute. reflexivity. }
  split; [exact Hempty|].
  destruct (empty_alphabet_outcome empty_source_content Hempty)
    as [(Hnil & _)|[(_ & Hraise & _)|Hruns]].
  - vm_compute in Hnil. discriminate Hnil.
  - rewrite empty_source_scan in Hraise. discriminate Hraise.
  - exact Hruns.
Defined.

(** The outcomes of the cells on four files: the empty file and a file
    without a newline, on which no line is read; the file ["\n"], whose
    only line is empty and cannot be unpacked; and the file ["\ta\n"]. *)
Lemma notebook_on_file_outcomes :
  notebook_on_file [] = Raise ValueError
  ∧ notebook_on_file (text "b" ++ TAB :: text "abab") = Raise ValueError
  ∧ read_lines [NEWLINE] = [[]]
  ∧ scan_raw_lines (read_lines [NEWLINE]) = Raise ValueError
  ∧ notebook_on_file [NEWLINE] = Raise ValueError
  ∧ ∃ g, notebook_on_file empty_source_content = Ok g
         ∧ num_encoder_tokens g = 0
         ∧ encoder_input_data g = [[]].
Proof.
  do 5 (split; [vm_compute; reflexivity|]).
  eexists. split; [vm_compute; reflexivity|]. split; reflexivity.
Qed.
